(** * Interview completion processor

    A shallow embedding of
    [apps/agent/processors/interview_completion_processor.py]: the question
    matcher, the agent-speech accumulator, the completion evaluator and the
    completion latch of [InterviewCompletionProcessor], followed by the
    properties of the specification that concern them.

    Conventions of the embedding.
    - A Python [str] is a [string]; a character is read as the code point of
      the same number (0..255), so [lower], [strip] and [split] below are
      Python's on that range.
    - A [set] of words is a [gset string].
    - A reading of [time.time()] and a duration are exact rationals ([Qc]).
      The quotient [len(a) / len(b)] compared with [0.4] is an exact
      rational as well: the double nearest to [k/n] is at least the double
      [0.4] exactly when [2*n <= 5*k], for every [n] below [2^54 / 5].
    - The handlers are [async], and the processor takes no lock. A handler
      is embedded twice: run alone, as one state transformer ([step], and
      [run] for events delivered one at a time), and cut at its [await]s
      ([start] and [resume], and [exec] for any schedule of deliveries and
      resumptions). [start_alone] and [exec_one_at_a_time] relate the two.
    - Effects are fields of the state: the notifications handed to
      [call.send_call_event], the invocations of the completion callback and
      the "marked complete" log line (the only place the textual reason of a
      completion is observable). The other log lines are left out.
    - A handler called on a processor whose start time was never taken
      raises [TypeError] at [now - self.interview_start_time]; an index
      outside [questions] raises [IndexError]. Both are results of the
      embedded handlers, and neither occurs after [setup]. *)

From stdpp Require Import gmap strings list numbers.
From Stdlib Require Import Ascii QArith Qcanon.

Local Open Scope Z_scope.
Local Open Scope nat_scope.

(** ** Python strings *)

Module PyStr.

(** [str.isspace] on one character: the code points below 256 that
    [str.strip] and [str.split] treat as white space. *)
Definition isspace (c : ascii) : bool :=
  let n := nat_of_ascii c in
  ((9 <=? n) && (n <=? 13)) || ((28 <=? n) && (n <=? 32))
  || (n =? 133) || (n =? 160).

(** [str.lower] on one character: A-Z, and the upper-case letters of the
    Latin-1 block (192..222 but for the multiplication sign 215). *)
Definition lower_char (c : ascii) : ascii :=
  let n := nat_of_ascii c in
  if ((65 <=? n) && (n <=? 90))
     || ((192 <=? n) && (n <=? 222) && negb (n =? 215))
  then ascii_of_nat (n + 32) else c.

Fixpoint lower (s : string) : string :=
  match s with
  | EmptyString => EmptyString
  | String c r => String (lower_char c) (lower r)
  end.

Fixpoint lstrip (s : string) : string :=
  match s with
  | EmptyString => EmptyString
  | String c r => if isspace c then lstrip r else s
  end.

Fixpoint rstrip (s : string) : string :=
  match s with
  | EmptyString => EmptyString
  | String c r =>
      match rstrip r with
      | EmptyString => if isspace c then EmptyString else String c EmptyString
      | r' => String c r'
      end
  end.

Definition strip (s : string) : string := rstrip (lstrip s).

(** [s.split()]: the maximal runs of non-space characters, in order.
    [word] holds the characters of the run being read, last one first. *)
Fixpoint split_go (word : string) (s : string) : list string :=
  match s with
  | EmptyString =>
      match word with EmptyString => [] | _ => [String.rev word] end
  | String c r =>
      if isspace c
      then match word with
           | EmptyString => split_go EmptyString r
           | _ => String.rev word :: split_go EmptyString r
           end
      else split_go (String c word) r
  end.

Definition split (s : string) : list string := split_go EmptyString s.

(** [hay.startswith(needle)] *)
Fixpoint startswith (needle hay : string) : bool :=
  match needle, hay with
  | EmptyString, _ => true
  | String a n, String b h => Ascii.eqb a b && startswith n h
  | String _ _, EmptyString => false
  end.

(** [needle in hay] *)
Fixpoint contains (needle hay : string) : bool :=
  startswith needle hay
  || match hay with
     | EmptyString => false
     | String _ r => contains needle r
     end.

(** truth value of a string: non-empty *)
Definition truthy (s : string) : bool :=
  match s with EmptyString => false | _ => true end.

Definition join_space (a b : string) : string :=
  String.append a (String " "%char b).

End PyStr.

(** ** Data model *)

(** One element of [questions]: a dict with the keys [text] and
    [category]. *)
Record Question := mkQuestion {
  q_text : string;
  q_category : string
}.

Inductive Speaker := agent | user.

Record TranscriptEntry := mkEntry {
  speaker : Speaker;
  text : string;
  timestamp : Qc
}.

(** The [custom] payloads handed to [call.send_call_event]. *)
Inductive Notification :=
| NTranscript (sp : Speaker) (txt : string) (ts : Qc)
| NProgress (questionIndex : nat) (category : string) (totalQuestions : nat).

(** The argument of [_mark_complete]. The evaluator joins up to three
    parts; the second and third are present when the corresponding criterion
    held. *)
Inductive Reason :=
| ReasonEvaluator (asked : option nat) (duration : option Qc)
| ReasonUserGoodbye
| ReasonTimeout (timeout : Qc).

(** The arguments of [__init__], fixed for the life of the processor. *)
Record Config := mkConfig {
  questions : list Question;
  expected_questions : nat;
  minimum_duration_minutes : Z;
  completion_callback : bool;      (* a callback was given (not None) *)
  call : bool;                     (* a call was given (truthy) *)
  agent_user_id : string
}.

(** The attributes the handlers assign, and the effects performed so far. *)
Record State := mkState {
  questions_asked : nat;
  current_question_index : nat;
  agent_closing_phrases : list string;
  last_agent_speech_time : option Qc;
  interview_start_time : option Qc;
  is_complete : bool;
  transcript : list TranscriptEntry;
  agent_speech_accumulator : string;
  accumulator_last_update : option Qc;
  (* effects *)
  sent : list Notification;
  callback_calls : nat;
  completion_log : list Reason
}.

Definition ACCUMULATOR_GAP_THRESHOLD : Qc := Qc_of_Z 2.

Definition closing_keywords : list string :=
  [ "goodbye"; "good bye"; "bye";
    "luck"; "best wishes";
    "thank you for your time"; "thanks for sharing";
    "we'll be in touch"; "be in touch";
    "that concludes"; "wraps up" ].

Definition filler_words : gset string :=
  list_to_set
    [ "the"; "a"; "an"; "is"; "are"; "was"; "were"; "to"; "for"; "and";
      "or"; "in"; "on"; "at"; "of"; "your"; "you"; "me"; "can"; "could";
      "would"; "about"; "with" ].

(** [__init__] *)
Definition make_config (qs : list Question) (minimum : Z)
    (callback : bool) (the_call : bool) (uid : string) : Config :=
  {| questions := qs;
     expected_questions := length qs;
     minimum_duration_minutes := minimum;
     completion_callback := callback;
     call := the_call;
     agent_user_id := uid |}.

Definition default_minimum_duration_minutes : Z := 8%Z.

Definition init_state : State :=
  {| questions_asked := 0;
     current_question_index := 0;
     agent_closing_phrases := [];
     last_agent_speech_time := None;
     interview_start_time := None;
     is_complete := false;
     transcript := [];
     agent_speech_accumulator := "";
     accumulator_last_update := None;
     sent := [];
     callback_calls := 0;
     completion_log := [] |}.

(** ** Question matcher *)

(** [set(s.split())] *)
Definition word_set (s : string) : gset string := list_to_set (PyStr.split s).

(** [match_ratio >= 0.4], with [match_ratio = len(common) / len(question)] *)
Definition match_ratio (common question : nat) : Qc :=
  (Qc_of_Z (Z.of_nat common) / Qc_of_Z (Z.of_nat question))%Qc.

Definition threshold : Qc := Q2Qc (4 # 10).

(** The body of the [for idx in range(current_question_index, len(questions))]
    loop, over the questions from [idx] on. *)
Fixpoint match_loop (accumulated_words : gset string)
    (qs : list Question) (idx : nat) : option nat :=
  match qs with
  | [] => None
  | question :: rest =>
      let question_text := PyStr.lower (q_text question) in
      let question_words := word_set question_text in
      if size question_words =? 0 then match_loop accumulated_words rest (S idx)
      else
        let common_words := accumulated_words ∩ question_words in
        let meaningful_common := common_words ∖ filler_words in
        let meaningful_question := question_words ∖ filler_words in
        if size meaningful_question =? 0
        then match_loop accumulated_words rest (S idx)
        else
          if bool_decide
               (threshold ≤ match_ratio (size meaningful_common)
                                        (size meaningful_question))%Qc
          then Some idx
          else match_loop accumulated_words rest (S idx)
  end.

(** [_check_question_match] *)
Definition check_question_match (cfg : Config) (st : State)
    (accumulated_text : string) : option nat :=
  if length (questions cfg) <=? current_question_index st then None
  else
    let accumulated_lower := PyStr.lower accumulated_text in
    let accumulated_words := word_set accumulated_lower in
    match_loop accumulated_words
      (drop (current_question_index st) (questions cfg))
      (current_question_index st).

(** ** Assignments to the attributes *)

Definition set_questions_asked (v : nat) (st : State) : State :=
  mkState v (current_question_index st) (agent_closing_phrases st)
    (last_agent_speech_time st) (interview_start_time st) (is_complete st)
    (transcript st) (agent_speech_accumulator st) (accumulator_last_update st)
    (sent st) (callback_calls st) (completion_log st).

Definition set_current_question_index (v : nat) (st : State) : State :=
  mkState (questions_asked st) v (agent_closing_phrases st)
    (last_agent_speech_time st) (interview_start_time st) (is_complete st)
    (transcript st) (agent_speech_accumulator st) (accumulator_last_update st)
    (sent st) (callback_calls st) (completion_log st).

Definition set_agent_closing_phrases (v : list string) (st : State) : State :=
  mkState (questions_asked st) (current_question_index st) v
    (last_agent_speech_time st) (interview_start_time st) (is_complete st)
    (transcript st) (agent_speech_accumulator st) (accumulator_last_update st)
    (sent st) (callback_calls st) (completion_log st).

Definition set_last_agent_speech_time (v : option Qc) (st : State) : State :=
  mkState (questions_asked st) (current_question_index st)
    (agent_closing_phrases st) v (interview_start_time st) (is_complete st)
    (transcript st) (agent_speech_accumulator st) (accumulator_last_update st)
    (sent st) (callback_calls st) (completion_log st).

Definition set_interview_start_time (v : option Qc) (st : State) : State :=
  mkState (questions_asked st) (current_question_index st)
    (agent_closing_phrases st) (last_agent_speech_time st) v (is_complete st)
    (transcript st) (agent_speech_accumulator st) (accumulator_last_update st)
    (sent st) (callback_calls st) (completion_log st).

Definition set_is_complete (v : bool) (st : State) : State :=
  mkState (questions_asked st) (current_question_index st)
    (agent_closing_phrases st) (last_agent_speech_time st)
    (interview_start_time st) v
    (transcript st) (agent_speech_accumulator st) (accumulator_last_update st)
    (sent st) (callback_calls st) (completion_log st).

Definition set_transcript (v : list TranscriptEntry) (st : State) : State :=
  mkState (questions_asked st) (current_question_index st)
    (agent_closing_phrases st) (last_agent_speech_time st)
    (interview_start_time st) (is_complete st)
    v (agent_speech_accumulator st) (accumulator_last_update st)
    (sent st) (callback_calls st) (completion_log st).

Definition set_agent_speech_accumulator (v : string) (st : State) : State :=
  mkState (questions_asked st) (current_question_index st)
    (agent_closing_phrases st) (last_agent_speech_time st)
    (interview_start_time st) (is_complete st)
    (transcript st) v (accumulator_last_update st)
    (sent st) (callback_calls st) (completion_log st).

Definition set_accumulator_last_update (v : option Qc) (st : State) : State :=
  mkState (questions_asked st) (current_question_index st)
    (agent_closing_phrases st) (last_agent_speech_time st)
    (interview_start_time st) (is_complete st)
    (transcript st) (agent_speech_accumulator st) v
    (sent st) (callback_calls st) (completion_log st).

Definition set_sent (v : list Notification) (st : State) : State :=
  mkState (questions_asked st) (current_question_index st)
    (agent_closing_phrases st) (last_agent_speech_time st)
    (interview_start_time st) (is_complete st)
    (transcript st) (agent_speech_accumulator st) (accumulator_last_update st)
    v (callback_calls st) (completion_log st).

Definition set_callback_calls (v : nat) (st : State) : State :=
  mkState (questions_asked st) (current_question_index st)
    (agent_closing_phrases st) (last_agent_speech_time st)
    (interview_start_time st) (is_complete st)
    (transcript st) (agent_speech_accumulator st) (accumulator_last_update st)
    (sent st) v (completion_log st).

Definition set_completion_log (v : list Reason) (st : State) : State :=
  mkState (questions_asked st) (current_question_index st)
    (agent_closing_phrases st) (last_agent_speech_time st)
    (interview_start_time st) (is_complete st)
    (transcript st) (agent_speech_accumulator st) (accumulator_last_update st)
    (sent st) (callback_calls st) v.

(** ** Exceptions

    A handler either returns or raises; in both cases the assignments made
    so far stay in the processor. *)

Inductive Exn := TypeError | IndexError.

Inductive Result :=
| Returned (st : State)
| Raised (e : Exn) (st : State).

Definition state_of (r : Result) : State :=
  match r with Returned st => st | Raised _ st => st end.

Definition returns (r : Result) : bool :=
  match r with Returned _ => true | Raised _ _ => false end.

Definition bind (r : Result) (k : State → Result) : Result :=
  match r with
  | Returned st => k st
  | Raised e st => Raised e st
  end.

Notation "'do' st <- r ; k" := (bind r (fun st => k))
  (at level 10, st name, r at level 100, k at level 200).

(** ** Outbound notifications *)

(** [call.send_call_event] is attempted when a call and an agent user id
    are configured; a failure of the send is caught and logged, so the
    processor continues either way. *)
Definition notifier_configured (cfg : Config) : bool :=
  call cfg && PyStr.truthy (agent_user_id cfg).

(** [_send_transcript_event] *)
Definition send_transcript_event (cfg : Config) (sp : Speaker)
    (txt : string) (ts : Qc) (st : State) : State :=
  if negb (call cfg) || negb (PyStr.truthy (agent_user_id cfg)) then st
  else set_sent (sent st ++ [NTranscript sp txt ts]) st.

(** [_send_progress_event] *)
Definition send_progress_event (cfg : Config) (question_index : nat)
    (category : string) (st : State) : State :=
  if negb (call cfg) || negb (PyStr.truthy (agent_user_id cfg)) then st
  else set_sent
         (sent st ++ [NProgress question_index category (expected_questions cfg)])
         st.

(** [round(x, 2)]: to the nearest hundredth, ties to the even one. *)
Definition round_half_even (q : Qc) : Z :=
  let n := Qnum q in
  let d := Zpos (Qden q) in
  let f := (n / d)%Z in
  let r := (n mod d)%Z in
  if (2 * r <? d)%Z then f
  else if (d <? 2 * r)%Z then (f + 1)%Z
  else if Z.even f then f else (f + 1)%Z.

Definition round2 (q : Qc) : Qc :=
  (Qc_of_Z (round_half_even (q * Qc_of_Z 100)%Qc) / Qc_of_Z 100)%Qc.

(** ** Completion latch and evaluator *)

(** [_mark_complete] *)
Definition mark_complete (cfg : Config) (reason : Reason) (st : State) : State :=
  if negb (is_complete st) then
    let st := set_completion_log (completion_log st ++ [reason]) st in
    let st := set_is_complete true st in
    if completion_callback cfg
    then set_callback_calls (S (callback_calls st)) st
    else st
  else st.

(** [duration_minutes] of [_check_completion] (and [get_duration_minutes]):
    the start time is tested for truth, so [None] and [0.0] both give 0. *)
Definition duration_minutes (now : Qc) (st : State) : Qc :=
  match interview_start_time st with
  | Some t0 => if bool_decide (t0 = 0%Qc) then 0%Qc else ((now - t0) / Qc_of_Z 60)%Qc
  | None => 0%Qc
  end.

Definition has_closing_phrase (st : State) : bool :=
  0 <? length (agent_closing_phrases st).

Definition enough_questions (cfg : Config) (st : State) : bool :=
  (Z.of_nat (expected_questions cfg) - 1 <=? Z.of_nat (questions_asked st))%Z.

Definition enough_time (cfg : Config) (now : Qc) (st : State) : bool :=
  bool_decide (Qc_of_Z (minimum_duration_minutes cfg) ≤ duration_minutes now st)%Qc.

(** [_check_completion]; [now] is its reading of the clock. *)
Definition check_completion (cfg : Config) (now : Qc) (st : State) : State :=
  if has_closing_phrase st && (enough_questions cfg st || enough_time cfg now st)
  then
    mark_complete cfg
      (ReasonEvaluator
         (if enough_questions cfg st then Some (questions_asked st) else None)
         (if enough_time cfg now st then Some (duration_minutes now st) else None))
      st
  else st.

(** The triggers of a conversation, each a call of [_mark_complete]. *)
Definition mark_all (cfg : Config) (reasons : list Reason) (st : State) : State :=
  foldl (fun s reason => mark_complete cfg reason s) st reasons.

(** The two ways [asyncio.wait_for(self.is_complete.wait(), timeout)] ends. *)
Inductive WaitOutcome := LatchObserved | TimeoutError.

Definition default_timeout : Qc := Qc_of_Z 900.

(** [wait_for_completion]; [st] is the processor when the wait ends. *)
Definition wait_for_completion (cfg : Config) (timeout : Qc)
    (outcome : WaitOutcome) (st : State) : State :=
  match outcome with
  | LatchObserved => st
  | TimeoutError => mark_complete cfg (ReasonTimeout timeout) st
  end.

(** ** Accumulator and handlers *)

(** [setup]: the start time is taken, then the handlers are subscribed. *)
Definition setup (now : Qc) (st : State) : State :=
  set_interview_start_time (Some now) st.

(** [_check_accumulator_for_question] *)
Definition check_accumulator_for_question (cfg : Config) (st : State) : Result :=
  if negb (PyStr.truthy (agent_speech_accumulator st)) then Returned st
  else
    do st <-
      match check_question_match cfg st (agent_speech_accumulator st) with
      | Some matched_idx =>
          if current_question_index st <=? matched_idx then
            match questions cfg !! matched_idx with
            | None => Raised IndexError st
            | Some current_q =>
                let st := send_progress_event cfg matched_idx
                            (q_category current_q) st in
                let st := set_current_question_index (matched_idx + 1) st in
                Returned (set_questions_asked (matched_idx + 1) st)
            end
          else Returned st
      | None => Returned st
      end;
    Returned (set_agent_speech_accumulator "" st).

(** The block "Add to transcript and broadcast to frontend" of
    [on_agent_speech]. *)
Definition record_agent_speech (cfg : Config) (text : string) (now : Qc)
    (st : State) : Result :=
  if PyStr.truthy text then
    match interview_start_time st with
    | None => Raised TypeError st
    | Some t0 =>
        let elapsed := (now - t0)%Qc in
        let st := set_transcript
                    (transcript st ++ [mkEntry agent text (round2 elapsed)]) st in
        let st := send_transcript_event cfg agent text (round2 elapsed) st in
        let st :=
          if PyStr.truthy (agent_speech_accumulator st)
          then set_agent_speech_accumulator
                 (PyStr.join_space (agent_speech_accumulator st) text) st
          else set_agent_speech_accumulator text st in
        Returned (set_accumulator_last_update (Some now) st)
    end
  else Returned st.

(** The block "Detect closing phrases" of [on_agent_speech]; [now_check] is
    the reading of the clock in [_check_completion]. *)
Definition detect_closing (cfg : Config) (text text_lower : string)
    (now_check : Qc) (st : State) : Result :=
  if existsb (fun keyword => PyStr.contains keyword text_lower) closing_keywords
  then
    let st := set_agent_closing_phrases (agent_closing_phrases st ++ [text]) st in
    do st <-
      (if current_question_index st <? length (questions cfg) then
         let last_idx := length (questions cfg) - 1 in
         match questions cfg !! last_idx with
         | None => Raised IndexError st
         | Some last_q =>
             let st := send_progress_event cfg last_idx (q_category last_q) st in
             Returned (set_current_question_index (length (questions cfg)) st)
         end
       else Returned st);
    Returned (check_completion cfg now_check st)
  else Returned st.

(** The block "Check if there's been a gap" of [on_agent_speech]. *)
Definition flush_on_gap (cfg : Config) (now : Qc) (st : State) : Result :=
  match accumulator_last_update st with
  | Some last =>
      let gap := (now - last)%Qc in
      if bool_decide (ACCUMULATOR_GAP_THRESHOLD < gap)%Qc
      then check_accumulator_for_question cfg st
      else Returned st
  | None => Returned st
  end.

(** [on_agent_speech]; [now] is the reading of the clock on entry. *)
Definition on_agent_speech (cfg : Config) (event_text : string)
    (now now_check : Qc) (st : State) : Result :=
  let text := PyStr.strip event_text in
  let text_lower := PyStr.lower text in
  do st <- flush_on_gap cfg now st;
  do st <- record_agent_speech cfg text now st;
  let st := set_last_agent_speech_time (Some now) st in
  detect_closing cfg text text_lower now_check st.

(** The block "Add to transcript and broadcast to frontend" of
    [on_user_speech]; [now] is its reading of the clock. *)
Definition record_user_speech (cfg : Config) (text : string) (now : Qc)
    (st : State) : Result :=
  if PyStr.truthy text && (1 <? String.length text) then
    match interview_start_time st with
    | None => Raised TypeError st
    | Some t0 =>
        let elapsed := (now - t0)%Qc in
        let st := set_transcript
                    (transcript st ++ [mkEntry user text (round2 elapsed)]) st in
        Returned (send_transcript_event cfg user text (round2 elapsed) st)
    end
  else Returned st.

(** [on_user_speech] *)
Definition on_user_speech (cfg : Config) (event_text : string) (now : Qc)
    (st : State) : Result :=
  do st <- check_accumulator_for_question cfg st;
  let text := PyStr.strip event_text in
  let text_lower := PyStr.lower text in
  do st <- record_user_speech cfg text now st;
  if PyStr.contains "goodbye" text_lower || PyStr.contains "bye" text_lower
  then Returned (mark_complete cfg ReasonUserGoodbye st)
  else Returned st.

(** ** Runs of a conversation *)

Inductive Event :=
| AgentSpeech (event_text : string) (now now_check : Qc)
| UserSpeech (event_text : string) (now : Qc)
| WaitEnds (timeout : Qc) (outcome : WaitOutcome).

Definition step (cfg : Config) (ev : Event) (st : State) : Result :=
  match ev with
  | AgentSpeech event_text now now_check =>
      on_agent_speech cfg event_text now now_check st
  | UserSpeech event_text now => on_user_speech cfg event_text now st
  | WaitEnds timeout outcome =>
      Returned (wait_for_completion cfg timeout outcome st)
  end.

(** The events are delivered one at a time: each handler runs to its end
    before the next event is delivered. A handler that raises does not stop
    the delivery of the later events. *)
Fixpoint run (cfg : Config) (evs : list Event) (st : State) : State :=
  match evs with
  | [] => st
  | ev :: rest => run cfg rest (state_of (step cfg ev st))
  end.

(** ** Handlers in flight

    The handlers are coroutines. A handler gives up control only inside
    [call.send_call_event], which the three [await self._send_..._event(...)]
    reach when a call and an agent user id are configured (otherwise
    [_send_..._event] returns at once and the handler goes on). Nothing in
    the processor keeps the handler of a later event from running while an
    earlier one is suspended there, so a handler is embedded a second time,
    cut at these three places; [step] above is the handler run alone. The
    [await] of the completion callback in [_mark_complete] is no fourth
    place: it is the last thing its handler does, and nothing of the
    processor is read or written after it. *)

(** A suspended handler: the place, and the locals the rest of it uses. *)
Inductive Suspended :=
| AgentInFlush (matched_idx : nat) (text : string) (now now_check : Qc)
| AgentInTranscriptSend (text : string) (now now_check : Qc)
| AgentInClosingSend (now_check : Qc)
| UserInFlush (matched_idx : nat) (text : string) (now : Qc)
| UserInTranscriptSend (text_lower : string).

(** A stretch of a handler ends the handler or suspends it. *)
Inductive Outcome :=
| Ends (r : Result)
| Suspends (p : Suspended) (st : State).

Definition outcome_state (o : Outcome) : State :=
  match o with Ends r => state_of r | Suspends _ st => st end.

(** [_check_accumulator_for_question] up to the [await] of its progress
    notification. *)
Inductive FlushOutcome :=
| FlushDone (st : State)
| FlushRaised (e : Exn) (st : State)
| FlushSuspended (matched_idx : nat) (st : State).

(** The assignments of [_check_accumulator_for_question] after that
    [await]. *)
Definition flush_finish (matched_idx : nat) (st : State) : State :=
  let st := set_current_question_index (matched_idx + 1) st in
  let st := set_questions_asked (matched_idx + 1) st in
  set_agent_speech_accumulator "" st.

Definition flush_begin (cfg : Config) (st : State) : FlushOutcome :=
  if negb (PyStr.truthy (agent_speech_accumulator st)) then FlushDone st
  else
    match check_question_match cfg st (agent_speech_accumulator st) with
    | Some matched_idx =>
        if current_question_index st <=? matched_idx then
          match questions cfg !! matched_idx with
          | None => FlushRaised IndexError st
          | Some current_q =>
              let st := send_progress_event cfg matched_idx
                          (q_category current_q) st in
              if notifier_configured cfg
              then FlushSuspended matched_idx st
              else FlushDone (flush_finish matched_idx st)
          end
        else FlushDone (set_agent_speech_accumulator "" st)
    | None => FlushDone (set_agent_speech_accumulator "" st)
    end.

(** [on_agent_speech] after the [await] of the wrap-up notification. *)
Definition agent_after_closing_send (cfg : Config) (now_check : Qc)
    (st : State) : Outcome :=
  let st := set_current_question_index (length (questions cfg)) st in
  Ends (Returned (check_completion cfg now_check st)).

(** [on_agent_speech] from [self.last_agent_speech_time = now] on. *)
Definition agent_detect (cfg : Config) (text : string) (now now_check : Qc)
    (st : State) : Outcome :=
  let st := set_last_agent_speech_time (Some now) st in
  if existsb (fun keyword => PyStr.contains keyword (PyStr.lower text))
       closing_keywords
  then
    let st := set_agent_closing_phrases (agent_closing_phrases st ++ [text]) st in
    if current_question_index st <? length (questions cfg) then
      let last_idx := length (questions cfg) - 1 in
      match questions cfg !! last_idx with
      | None => Ends (Raised IndexError st)
      | Some last_q =>
          let st := send_progress_event cfg last_idx (q_category last_q) st in
          if notifier_configured cfg
          then Suspends (AgentInClosingSend now_check) st
          else agent_after_closing_send cfg now_check st
      end
    else Ends (Returned (check_completion cfg now_check st))
  else Ends (Returned st).

(** [on_agent_speech] after the [await] of the transcript notification. *)
Definition agent_accumulate (cfg : Config) (text : string) (now now_check : Qc)
    (st : State) : Outcome :=
  let st :=
    if PyStr.truthy (agent_speech_accumulator st)
    then set_agent_speech_accumulator
           (PyStr.join_space (agent_speech_accumulator st) text) st
    else set_agent_speech_accumulator text st in
  let st := set_accumulator_last_update (Some now) st in
  agent_detect cfg text now now_check st.

(** [on_agent_speech] from [if text:] on. *)
Definition agent_record (cfg : Config) (text : string) (now now_check : Qc)
    (st : State) : Outcome :=
  if PyStr.truthy text then
    match interview_start_time st with
    | None => Ends (Raised TypeError st)
    | Some t0 =>
        let elapsed := (now - t0)%Qc in
        let st := set_transcript
                    (transcript st ++ [mkEntry agent text (round2 elapsed)]) st in
        let st := send_transcript_event cfg agent text (round2 elapsed) st in
        if notifier_configured cfg
        then Suspends (AgentInTranscriptSend text now now_check) st
        else agent_accumulate cfg text now now_check st
    end
  else agent_detect cfg text now now_check st.

(** [on_agent_speech] from its first line. *)
Definition agent_start (cfg : Config) (event_text : string) (now now_check : Qc)
    (st : State) : Outcome :=
  let text := PyStr.strip event_text in
  match accumulator_last_update st with
  | Some last =>
      let gap := (now - last)%Qc in
      if bool_decide (ACCUMULATOR_GAP_THRESHOLD < gap)%Qc then
        match flush_begin cfg st with
        | FlushDone st => agent_record cfg text now now_check st
        | FlushRaised e st => Ends (Raised e st)
        | FlushSuspended matched_idx st =>
            Suspends (AgentInFlush matched_idx text now now_check) st
        end
      else agent_record cfg text now now_check st
  | None => agent_record cfg text now now_check st
  end.

(** [on_user_speech] after the [await] of the transcript notification. *)
Definition user_goodbye (cfg : Config) (text_lower : string) (st : State)
    : Outcome :=
  if PyStr.contains "goodbye" text_lower || PyStr.contains "bye" text_lower
  then Ends (Returned (mark_complete cfg ReasonUserGoodbye st))
  else Ends (Returned st).

(** [on_user_speech] after the flush. *)
Definition user_record (cfg : Config) (text : string) (now : Qc) (st : State)
    : Outcome :=
  if PyStr.truthy text && (1 <? String.length text) then
    match interview_start_time st with
    | None => Ends (Raised TypeError st)
    | Some t0 =>
        let elapsed := (now - t0)%Qc in
        let st := set_transcript
                    (transcript st ++ [mkEntry user text (round2 elapsed)]) st in
        let st := send_transcript_event cfg user text (round2 elapsed) st in
        if notifier_configured cfg
        then Suspends (UserInTranscriptSend (PyStr.lower text)) st
        else user_goodbye cfg (PyStr.lower text) st
    end
  else user_goodbye cfg (PyStr.lower text) st.

(** [on_user_speech] from its first line. *)
Definition user_start (cfg : Config) (event_text : string) (now : Qc)
    (st : State) : Outcome :=
  match flush_begin cfg st with
  | FlushDone st => user_record cfg (PyStr.strip event_text) now st
  | FlushRaised e st => Ends (Raised e st)
  | FlushSuspended matched_idx st =>
      Suspends (UserInFlush matched_idx (PyStr.strip event_text) now) st
  end.

(** The handler of an event, up to its first suspension. *)
Definition start (cfg : Config) (ev : Event) (st : State) : Outcome :=
  match ev with
  | AgentSpeech event_text now now_check =>
      agent_start cfg event_text now now_check st
  | UserSpeech event_text now => user_start cfg event_text now st
  | WaitEnds timeout outcome =>
      Ends (Returned (wait_for_completion cfg timeout outcome st))
  end.

(** A suspended handler, from where it was to its next suspension. *)
Definition resume (cfg : Config) (p : Suspended) (st : State) : Outcome :=
  match p with
  | AgentInFlush matched_idx text now now_check =>
      agent_record cfg text now now_check (flush_finish matched_idx st)
  | AgentInTranscriptSend text now now_check =>
      agent_accumulate cfg text now now_check st
  | AgentInClosingSend now_check => agent_after_closing_send cfg now_check st
  | UserInFlush matched_idx text now =>
      user_record cfg text now (flush_finish matched_idx st)
  | UserInTranscriptSend text_lower => user_goodbye cfg text_lower st
  end.

(** A handler run alone: resumed as soon as it is suspended, up to [fuel]
    times (a handler is suspended at most three times). *)
Fixpoint resumed (cfg : Config) (fuel : nat) (o : Outcome) : Outcome :=
  match fuel, o with
  | S fuel, Suspends p st => resumed cfg fuel (resume cfg p st)
  | _, _ => o
  end.

(** The processor and the handlers suspended on it. *)
Record World := mkWorld {
  processor : State;
  in_flight : list Suspended
}.

(** What the event loop does next: it starts the handler of an event, or
    resumes the suspended handler at a position of [in_flight]. *)
Inductive Action :=
| Deliver (ev : Event)
| Resume (i : nat).

Definition act (cfg : Config) (a : Action) (w : World) : World :=
  match a with
  | Deliver ev =>
      match start cfg ev (processor w) with
      | Ends r => mkWorld (state_of r) (in_flight w)
      | Suspends p st => mkWorld st (in_flight w ++ [p])
      end
  | Resume i =>
      match in_flight w !! i with
      | None => w
      | Some p =>
          match resume cfg p (processor w) with
          | Ends r => mkWorld (state_of r) (delete i (in_flight w))
          | Suspends p' st => mkWorld st (<[i := p']> (in_flight w))
          end
      end
  end.

Fixpoint exec (cfg : Config) (actions : list Action) (w : World) : World :=
  match actions with
  | [] => w
  | a :: rest => exec cfg rest (act cfg a w)
  end.

(** The events a schedule delivers, in order. *)
Definition delivered (actions : list Action) : list Event :=
  omap (fun a => match a with Deliver ev => Some ev | Resume _ => None end)
    actions.

(** The schedule that lets every handler finish before the next event is
    delivered. *)
Definition one_at_a_time (evs : list Event) : list Action :=
  flat_map (fun ev => [Deliver ev; Resume 0; Resume 0; Resume 0]) evs.

(** A suspended handler that has no assignment to the counters left: it
    waits for a transcript notification. *)
Definition past_counters (p : Suspended) : Prop :=
  match p with
  | AgentInTranscriptSend _ _ _ | UserInTranscriptSend _ => True
  | AgentInFlush _ _ _ _ | AgentInClosingSend _ | UserInFlush _ _ _ => False
  end.

(** The transcript entries (speaker and text) a suspended handler has still
    to append: one suspended in its flush has not recorded its fragment. *)
Definition owed_entries (p : Suspended) : list (Speaker * string) :=
  match p with
  | AgentInFlush _ txt _ _ => if PyStr.truthy txt then [(agent, txt)] else []
  | UserInFlush _ txt _ =>
      if PyStr.truthy txt && (1 <? String.length txt) then [(user, txt)] else []
  | _ => []
  end.

(** The closing phrase a suspended agent handler has still to append. *)
Definition owed_closing (p : Suspended) : list string :=
  match p with
  | AgentInFlush _ txt _ _ | AgentInTranscriptSend txt _ _ =>
      if existsb (fun keyword => PyStr.contains keyword (PyStr.lower txt))
           closing_keywords
      then [txt] else []
  | _ => []
  end.

(** What the handler behind an outcome still owes. *)
Definition owed_by {A : Type} (owed : Suspended → list A) (o : Outcome)
    : list A :=
  match o with Ends _ => [] | Suspends p _ => owed p end.

(** The transcript as speakers and texts. *)
Definition said (st : State) : list (Speaker * string) :=
  (fun e => (speaker e, text e)) <$> transcript st.

(** A stretch of a handler keeps the books: it leaves the start time as it
    was, and what it records together with what it still owes is what was
    due ([due_entries] to the transcript, [due_closing] to the closing
    phrases). *)
Definition keeps_books (st : State) (o : Outcome)
    (due_entries : list (Speaker * string)) (due_closing : list string)
    : Prop :=
  interview_start_time (outcome_state o) = interview_start_time st
  ∧ said (outcome_state o) ++ owed_by owed_entries o = said st ++ due_entries
  ∧ agent_closing_phrases (outcome_state o) ++ owed_by owed_closing o
    = agent_closing_phrases st ++ due_closing.

(** What is booked in the processor, with what the suspended handlers
    still owe. *)
Definition on_books {A : Type} (booked : State → list A)
    (owed : Suspended → list A) (w : World) : list A :=
  booked (processor w) ++ concat (owed <$> in_flight w).

(** ** The matcher as the specification words it

    "Meaningful" words of a text: lower-case it, split it on white space
    into a set of words, remove the filler words. A question qualifies when
    its raw and meaningful word sets are not empty and the share of its
    meaningful words found among the meaningful words of the accumulated
    text is at least 0.40. *)

Definition meaningful (s : string) : gset string :=
  word_set (PyStr.lower s) ∖ filler_words.

Definition overlap (accumulated question_text : string) : Qc :=
  (Qc_of_Z (Z.of_nat (size (meaningful accumulated ∩ meaningful question_text)))
   / Qc_of_Z (Z.of_nat (size (meaningful question_text))))%Qc.

Definition qualifies (accumulated : string) (q : Question) : Prop :=
  word_set (PyStr.lower (q_text q)) ≠ ∅
  ∧ meaningful (q_text q) ≠ ∅
  ∧ (threshold ≤ overlap accumulated (q_text q))%Qc.

Global Instance qualifies_dec accumulated q : Decision (qualifies accumulated q).
Proof. unfold qualifies. apply _. Defined.

(** [matchQuestion(accumulatedText, questions, fromIndex)]: the first index
    from [fromIndex] on, below the number of questions, that qualifies. *)
Definition matchQuestion (accumulated : string) (qs : list Question)
    (fromIndex : nat) : option nat :=
  find (fun i => match qs !! i with
                 | Some q => bool_decide (qualifies accumulated q)
                 | None => false
                 end)
       (seq fromIndex (length qs - fromIndex)).

(** The processor after a flush: progress for a match, buffer cleared. *)
Definition flushed (cfg : Config) (st : State) : State :=
  match agent_speech_accumulator st with
  | EmptyString => st
  | _ =>
      set_agent_speech_accumulator ""
        match check_question_match cfg st (agent_speech_accumulator st) with
        | Some matched_idx =>
            set_questions_asked (matched_idx + 1)
              (set_current_question_index (matched_idx + 1)
                 (send_progress_event cfg matched_idx
                    (from_option q_category "" (questions cfg !! matched_idx))
                    st))
        | None => st
        end
  end.

(** The processor after the block "Mark the last question (wrap-up) as
    reached". *)
Definition wrap_up_reached (cfg : Config) (st : State) : State :=
  if current_question_index st <? length (questions cfg) then
    set_current_question_index (length (questions cfg))
      (send_progress_event cfg (length (questions cfg) - 1)
         (from_option q_category ""
            (questions cfg !! (length (questions cfg) - 1)))
         st)
  else st.

(** A keyword that neither starts nor ends with white space is found in a
    text exactly when it is found in the trimmed text. *)
Definition starts_nonspace (s : string) : bool :=
  match s with
  | EmptyString => false
  | String a _ => negb (PyStr.isspace a)
  end.

Fixpoint ends_nonspace (s : string) : bool :=
  match s with
  | EmptyString => false
  | String a EmptyString => negb (PyStr.isspace a)
  | String _ r => ends_nonspace r
  end.

(** What one handler may do to the latch: nothing, or set it, log one
    reason and run the callback (when given). *)
Definition latch_step (cfg : Config) (st st' : State) : Prop :=
  (is_complete st' = is_complete st
   ∧ callback_calls st' = callback_calls st
   ∧ completion_log st' = completion_log st)
  ∨ (is_complete st = false
     ∧ is_complete st' = true
     ∧ callback_calls st'
       = callback_calls st + (if completion_callback cfg then 1 else 0)
     ∧ ∃ reason, completion_log st' = completion_log st ++ [reason]).

(** ** Queries *)

(** [get_duration_minutes]; [now] is its reading of the clock. *)
Definition get_duration_minutes (now : Qc) (st : State) : Qc :=
  match interview_start_time st with
  | Some t0 => if bool_decide (t0 = 0%Qc) then 0%Qc else ((now - t0) / Qc_of_Z 60)%Qc
  | None => 0%Qc
  end.

(** The values of the dict [asdict] builds from a [TranscriptEntry]. *)
Inductive PyValue :=
| VStr (s : string)
| VFloat (q : Qc).

(** The [speaker] field is the string "agent" or "user". *)
Definition speaker_str (sp : Speaker) : string :=
  match sp with agent => "agent" | user => "user" end.

(** [TranscriptEntry.to_dict] *)
Definition to_dict (e : TranscriptEntry) : gmap string PyValue :=
  <["speaker" := VStr (speaker_str (speaker e))]>
    (<["text" := VStr (text e)]>
       (<["timestamp" := VFloat (timestamp e)]> ∅)).

(** [get_transcript] *)
Definition get_transcript (st : State) : list (gmap string PyValue) :=
  to_dict <$> transcript st.

(** ** What the handlers put out *)

(** The transcript entry a transcript notification carries. *)
Definition entry_of (n : Notification) : option TranscriptEntry :=
  match n with
  | NTranscript sp txt ts => Some (mkEntry sp txt ts)
  | NProgress _ _ _ => None
  end.

(** An entry as the handlers record it: the text is not empty, and a user's
    text has more than one character. *)
Definition entry_ok (e : TranscriptEntry) : Prop :=
  text e ≠ "" ∧ (speaker e = user → 1 < String.length (text e)).

(** A progress notification names a question of the list, its category and
    the expected number of questions. *)
Definition notification_ok (cfg : Config) (n : Notification) : Prop :=
  match n with
  | NProgress i category total =>
      total = expected_questions cfg
      ∧ ∃ q, questions cfg !! i = Some q ∧ category = q_category q
  | NTranscript _ _ _ => True
  end.

(** From [st] to [st'] the transcript and the notifications only grow, by
    well-formed items, and each new entry is broadcast when the notifier is
    configured (and nothing is sent when it is not). *)
Definition outputs (cfg : Config) (st st' : State) : Prop :=
  ∃ entries notes,
    transcript st' = transcript st ++ entries
    ∧ sent st' = sent st ++ notes
    ∧ Forall entry_ok entries
    ∧ Forall (notification_ok cfg) notes
    ∧ if notifier_configured cfg then omap entry_of notes = entries
      else notes = [].

(** What a fragment adds to the transcript: the trimmed text of an agent
    fragment that is not blank, or of a user fragment of more than one
    character. *)
Definition recorded (ev : Event) : option (Speaker * string) :=
  match ev with
  | AgentSpeech event_text _ _ =>
      let txt := PyStr.strip event_text in
      if PyStr.truthy txt then Some (agent, txt) else None
  | UserSpeech event_text _ =>
      let txt := PyStr.strip event_text in
      if PyStr.truthy txt && (1 <? String.length txt) then Some (user, txt)
      else None
  | WaitEnds _ _ => None
  end.

(** The closing phrase a fragment adds: the trimmed text of an agent
    fragment in which a closing keyword is found. *)
Definition closing_phrase_of (ev : Event) : option string :=
  match ev with
  | AgentSpeech event_text _ _ =>
      if existsb (fun keyword =>
                    PyStr.contains keyword (PyStr.lower (PyStr.strip event_text)))
           closing_keywords
      then Some (PyStr.strip event_text) else None
  | _ => None
  end.

(** The integer form of the overlap test. *)
Definition passes_threshold (accumulated : string) (q : Question) : bool :=
  negb (size (meaningful (q_text q)) =? 0)
  && (2 * size (meaningful (q_text q))
      <=? 5 * size (meaningful accumulated ∩ meaningful (q_text q))).

(** ** A sample conversation *)

Definition demo_questions : list Question :=
  [ mkQuestion "Tell me about your experience with distributed systems" "technical";
    mkQuestion "Why are you the one for us" "motivation";
    mkQuestion "Do you have any questions" "wrap-up" ].

Definition demo_config : Config :=
  make_config demo_questions default_minimum_duration_minutes true true "agent-1".

(** The processor after [setup] at clock reading 1000. *)
Definition started : State := setup (Qc_of_Z 1000) init_state.


(** ** Tactics for the handlers *)

Ltac unfold_setters :=
  unfold set_questions_asked, set_current_question_index,
    set_agent_closing_phrases, set_last_agent_speech_time,
    set_interview_start_time, set_is_complete, set_transcript,
    set_agent_speech_accumulator, set_accumulator_last_update, set_sent,
    set_callback_calls, set_completion_log in *.

Ltac fields :=
  cbn [questions_asked current_question_index agent_closing_phrases
       last_agent_speech_time interview_start_time is_complete transcript
       agent_speech_accumulator accumulator_last_update sent callback_calls
       completion_log state_of returns bind negb andb orb] in *.

(** Split on every test of the code in the goal. *)
Ltac branches :=
  repeat (first [ progress fields | case_match ]); unfold_setters; fields.


(** ** Schedules on the sample conversation *)

(** A schedule on the sample conversation: the first fragment is buffered;
    the user's turn starts a flush, which matches the first question and is
    suspended in its progress notification; the agent's closing fragment is
    handled to its end; then the flush is resumed. *)
Definition race_before_resume : list Action :=
  [ Deliver (AgentSpeech "Tell me about your experience"
               (Qc_of_Z 1001) (Qc_of_Z 1001));
    Resume 0;
    Deliver (UserSpeech "It started in school" (Qc_of_Z 1002));
    Deliver (AgentSpeech "Goodbye!" (Qc_of_Z 1003) (Qc_of_Z 1003));
    Resume 1;
    Resume 1 ].

(** A schedule on the sample conversation in which the user's turn is
    suspended in its flush while the next agent fragment is recorded. *)
Definition overtaking_schedule : list Action :=
  [ Deliver (AgentSpeech "Tell me about your experience"
               (Qc_of_Z 1001) (Qc_of_Z 1001));
    Resume 0;
    Deliver (UserSpeech "It started in school" (Qc_of_Z 1002));
    Deliver (AgentSpeech "I see" (Qc_of_Z 1003) (Qc_of_Z 1003));
    Resume 1;
    Resume 0;
    Resume 0 ].

(** A schedule in which two closing fragments are both suspended in their
    transcript notification, and the later one is resumed first. *)
Definition overtaking_closing_schedule : list Action :=
  [ Deliver (AgentSpeech "Thank you for your time"
               (Qc_of_Z 1001) (Qc_of_Z 1001));
    Deliver (AgentSpeech "Goodbye!" (Qc_of_Z 1002) (Qc_of_Z 1002));
    Resume 1;
    Resume 1;
    Resume 0 ].



(** The sample conversation after a closing fragment handled to its end:
    no handler is suspended and the cursor is past the last question. *)
Definition wrapped_up : World :=
  exec demo_config
    [ Deliver (AgentSpeech "Goodbye!" (Qc_of_Z 1001) (Qc_of_Z 1001));
      Resume 0;
      Resume 0 ]
    (mkWorld started []).

(** * Properties *)

(** ** Strings *)

Example split_example :
  PyStr.split "  So tell   me " = ["So"; "tell"; "me"].
Proof. reflexivity. Qed.

Example strip_example : PyStr.strip "  Bye  for now  " = "Bye  for now".
Proof. reflexivity. Qed.

Example lower_example : PyStr.lower "Good Bye!" = "good bye!".
Proof. reflexivity. Qed.

Example contains_example :
  PyStr.contains "bye" "well, goodbye then" = true
  ∧ PyStr.contains "bye" "by e" = false.
Proof. split; reflexivity. Qed.

Lemma truthy_false s : PyStr.truthy s = false ↔ s = "".
Proof. destruct s; simpl; split; congruence. Qed.

Lemma truthy_true s : PyStr.truthy s = true ↔ s ≠ "".
Proof. destruct s; simpl; split; congruence. Qed.

Lemma startswith_length needle hay :
  PyStr.startswith needle hay = true → String.length needle ≤ String.length hay.
Proof.
  revert hay. induction needle as [|a n IH]; intros [|b h]; simpl; try lia.
  intros [_ H]%andb_prop. apply IH in H. lia.
Qed.

Lemma contains_length needle hay :
  PyStr.contains needle hay = true → String.length needle ≤ String.length hay.
Proof.
  induction hay as [|b h IH].
  - simpl. rewrite orb_false_r. apply startswith_length.
  - cbn [PyStr.contains]. intros [H|H]%orb_prop.
    + by apply startswith_length.
    + apply IH in H. simpl. lia.
Qed.

(** ** Trimming and substrings *)

Lemma lower_char_isspace c : PyStr.isspace (PyStr.lower_char c) = PyStr.isspace c.
Proof. by destruct c as [[] [] [] [] [] [] [] []]. Qed.

Lemma lower_lstrip s : PyStr.lower (PyStr.lstrip s) = PyStr.lstrip (PyStr.lower s).
Proof.
  induction s as [|c s IH]; [done |].
  cbn [PyStr.lstrip PyStr.lower]. rewrite lower_char_isspace.
  by destruct (PyStr.isspace c).
Qed.

Lemma lower_rstrip s : PyStr.lower (PyStr.rstrip s) = PyStr.rstrip (PyStr.lower s).
Proof.
  induction s as [|c s IH]; [done |].
  cbn [PyStr.rstrip PyStr.lower]. rewrite <- IH, lower_char_isspace.
  destruct (PyStr.rstrip s); [by destruct (PyStr.isspace c) | done].
Qed.

Lemma lower_strip s : PyStr.lower (PyStr.strip s) = PyStr.strip (PyStr.lower s).
Proof. unfold PyStr.strip. by rewrite lower_rstrip, lower_lstrip. Qed.

Lemma isspace_eqb a c :
  PyStr.isspace a = false → PyStr.isspace c = true → Ascii.eqb a c = false.
Proof.
  intros Ha Hc. apply Ascii.eqb_neq. intros ->. congruence.
Qed.

Lemma contains_lstrip needle s :
  starts_nonspace needle = true →
  PyStr.contains needle (PyStr.lstrip s) = PyStr.contains needle s.
Proof.
  destruct needle as [|a n]; [done |]. cbn [starts_nonspace].
  intros Ha%negb_true_iff. induction s as [|c s IH]; [done |].
  cbn [PyStr.lstrip]. destruct (PyStr.isspace c) eqn:Hc; [| done].
  rewrite IH. cbn [PyStr.contains PyStr.startswith].
  by rewrite (isspace_eqb a c).
Qed.

Lemma startswith_empty_hay needle :
  needle ≠ "" → PyStr.startswith needle "" = false.
Proof. by destruct needle. Qed.

Lemma startswith_rstrip needle s :
  ends_nonspace needle = true →
  PyStr.startswith needle (PyStr.rstrip s) = PyStr.startswith needle s.
Proof.
  revert s. induction needle as [|a n IH]; intros s Hn; [done |].
  destruct s as [|c r]; [done |].
  cbn [PyStr.rstrip]. destruct n as [|b n].
  - cbn [ends_nonspace] in Hn. apply negb_true_iff in Hn.
    destruct (PyStr.rstrip r); cbn [PyStr.startswith].
    + destruct (PyStr.isspace c) eqn:Hc; cbn [PyStr.startswith]; [| done].
      by rewrite (isspace_eqb a c).
    + done.
  - assert (Hn' : ends_nonspace (String b n) = true) by done.
    specialize (IH r Hn').
    change (PyStr.startswith (String a (String b n)) (String c r))
      with (Ascii.eqb a c && PyStr.startswith (String b n) r).
    rewrite <- IH.
    destruct (PyStr.rstrip r); [| done].
    destruct (PyStr.isspace c); cbn [PyStr.startswith];
      by rewrite ?andb_false_r.
Qed.

Lemma contains_rstrip needle s :
  ends_nonspace needle = true →
  PyStr.contains needle (PyStr.rstrip s) = PyStr.contains needle s.
Proof.
  intros Hn. assert (Hne : needle ≠ "") by (by destruct needle).
  induction s as [|c r IH]; [done |].
  pose proof (startswith_rstrip needle (String c r) Hn) as Hs.
  cbn [PyStr.contains]. rewrite <- IH, <- Hs. cbn [PyStr.rstrip].
  destruct (PyStr.rstrip r) eqn:Er.
  - destruct (PyStr.isspace c); cbn [PyStr.contains];
      by rewrite ?startswith_empty_hay, ?orb_false_r.
  - done.
Qed.

Lemma contains_lower_strip needle s :
  starts_nonspace needle = true → ends_nonspace needle = true →
  PyStr.contains needle (PyStr.lower (PyStr.strip s))
  = PyStr.contains needle (PyStr.lower s).
Proof.
  intros Hs He. rewrite lower_strip. unfold PyStr.strip.
  by rewrite contains_rstrip, contains_lstrip.
Qed.

Lemma closing_detection_ignores_trim s :
  existsb (fun keyword => PyStr.contains keyword (PyStr.lower (PyStr.strip s)))
    closing_keywords
  = existsb (fun keyword => PyStr.contains keyword (PyStr.lower s))
      closing_keywords.
Proof.
  unfold closing_keywords. cbn [existsb].
  by rewrite !contains_lower_strip.
Qed.

(** ** The matcher *)

Lemma meaningful_common (a q f : gset string) :
  (a ∩ q) ∖ f = (a ∖ f) ∩ (q ∖ f).
Proof.
  apply set_eq. intros w.
  rewrite !elem_of_intersection, !elem_of_difference, elem_of_intersection.
  tauto.
Qed.

Lemma size_zero_empty (s : gset string) : (size s =? 0) = true ↔ s = ∅.
Proof.
  rewrite Nat.eqb_eq, size_empty_iff. by unfold_leibniz.
Qed.

(** One pass of the loop body decides [qualifies]. *)
Lemma loop_body_qualifies accumulated q :
  let question_words := word_set (PyStr.lower (q_text q)) in
  let accumulated_words := word_set (PyStr.lower accumulated) in
  qualifies accumulated q ↔
    (size question_words =? 0) = false
    ∧ (size (question_words ∖ filler_words) =? 0) = false
    ∧ bool_decide
        (threshold ≤ match_ratio
           (size ((accumulated_words ∩ question_words) ∖ filler_words))
           (size (question_words ∖ filler_words)))%Qc = true.
Proof.
  intros qw aw. unfold qualifies, overlap, meaningful, match_ratio.
  fold qw aw. rewrite meaningful_common, bool_decide_eq_true.
  rewrite <- !not_true_iff_false, !size_zero_empty. tauto.
Qed.

Lemma match_loop_spec accumulated qs idx :
  match match_loop (word_set (PyStr.lower accumulated)) qs idx with
  | Some i =>
      ∃ k q, i = idx + k ∧ qs !! k = Some q ∧ qualifies accumulated q
             ∧ ∀ j q', j < k → qs !! j = Some q' → ¬ qualifies accumulated q'
  | None => ∀ j q', qs !! j = Some q' → ¬ qualifies accumulated q'
  end.
Proof.
  revert idx. induction qs as [|q rest IH]; intros idx.
  - simpl. intros j q'. by rewrite lookup_nil.
  - cbn [match_loop].
    pose proof (loop_body_qualifies accumulated q) as Hq. cbv zeta in Hq.
    assert (Hskip : ¬ qualifies accumulated q →
      match match_loop (word_set (PyStr.lower accumulated)) rest (S idx) with
      | Some i =>
          ∃ k q0, i = idx + k ∧ (q :: rest) !! k = Some q0
                  ∧ qualifies accumulated q0
                  ∧ ∀ j q', j < k → (q :: rest) !! j = Some q'
                            → ¬ qualifies accumulated q'
      | None => ∀ j q', (q :: rest) !! j = Some q' → ¬ qualifies accumulated q'
      end).
    { intros Hno. specialize (IH (S idx)).
      destruct (match_loop _ rest (S idx)) as [i|].
      - destruct IH as (k & q0 & -> & Hk & Hq0 & Hfirst).
        exists (S k), q0. split_and!; [lia | done | done |].
        intros [|j] q' Hj; simpl; [by intros [= <-] | ].
        apply Hfirst. lia.
      - intros [|j] q'; simpl; [by intros [= <-] | apply IH]. }
    destruct (size (word_set (PyStr.lower (q_text q))) =? 0) eqn:E1.
    { apply Hskip. rewrite Hq. intros (? & _). congruence. }
    destruct (size (word_set (PyStr.lower (q_text q)) ∖ filler_words) =? 0) eqn:E2.
    { apply Hskip. rewrite Hq. intros (_ & ? & _). congruence. }
    destruct (bool_decide _) eqn:E3.
    + exists 0, q. split_and!; [lia | done | by apply Hq | lia].
    + apply Hskip. rewrite Hq. intros (_ & _ & ?). congruence.
Qed.

Lemma qualifies_common accumulated q :
  qualifies accumulated q → meaningful accumulated ∩ meaningful (q_text q) ≠ ∅.
Proof.
  intros (_ & _ & Hle) Hempty. unfold overlap in Hle.
  rewrite Hempty, size_empty in Hle. unfold Qcdiv in Hle.
  replace (Qc_of_Z (Z.of_nat 0)) with 0%Qc in Hle by (by apply Qc_is_canon).
  rewrite Qcmult_0_l in Hle. revert Hle. by apply Qclt_not_le.
Qed.

Lemma meaningful_empty_text : meaningful "" = ∅.
Proof. apply set_eq. intros w. unfold meaningful, word_set. set_solver. Qed.

Lemma check_question_match_past_end cfg st accumulated :
  length (questions cfg) ≤ current_question_index st →
  check_question_match cfg st accumulated = None.
Proof.
  intros H. unfold check_question_match.
  by apply Nat.leb_le in H as ->.
Qed.

Lemma check_question_match_cases cfg st accumulated :
  match check_question_match cfg st accumulated with
  | Some i =>
      current_question_index st ≤ i < length (questions cfg)
      ∧ (∃ q, questions cfg !! i = Some q ∧ qualifies accumulated q)
      ∧ ∀ j q, current_question_index st ≤ j < i →
               questions cfg !! j = Some q → ¬ qualifies accumulated q
  | None =>
      ∀ j q, current_question_index st ≤ j →
             questions cfg !! j = Some q → ¬ qualifies accumulated q
  end.
Proof.
  unfold check_question_match.
  destruct (length (questions cfg) <=? current_question_index st) eqn:E.
  { apply Nat.leb_le in E. intros j q Hj Hq.
    apply lookup_lt_Some in Hq. lia. }
  pose proof (match_loop_spec accumulated
                (drop (current_question_index st) (questions cfg))
                (current_question_index st)) as H.
  destruct (match_loop _ _ _) as [i|].
  - destruct H as (k & q & -> & Hk & Hq & Hfirst).
    rewrite lookup_drop in Hk. split_and!.
    + lia.
    + by apply lookup_lt_Some in Hk.
    + by exists q.
    + intros j q' Hj Hq'.
      apply (Hfirst (j - current_question_index st)); [lia |].
      rewrite lookup_drop. by replace (_ + (j - _)) with j by lia.
  - intros j q' Hj Hq'.
    apply (H (j - current_question_index st)).
    rewrite lookup_drop. by replace (_ + (j - _)) with j by lia.
Qed.

(** The loop computes [matchQuestion]. *)
Lemma match_loop_matchQuestion accumulated pre rest :
  match_loop (word_set (PyStr.lower accumulated)) rest (length pre)
  = find (fun i => match (pre ++ rest) !! i with
                   | Some q => bool_decide (qualifies accumulated q)
                   | None => false
                   end)
         (seq (length pre) (length rest)).
Proof.
  revert pre. induction rest as [|q rest IH]; intros pre; [done |].
  cbn [match_loop length seq find].
  rewrite list_lookup_middle by done.
  replace (pre ++ q :: rest) with ((pre ++ [q]) ++ rest)
    by (by rewrite <- app_assoc).
  replace (S (length pre)) with (length (pre ++ [q]))
    by (rewrite length_app; simpl; lia).
  rewrite <- IH.
  pose proof (loop_body_qualifies accumulated q) as Hq. cbv zeta in Hq.
  destruct (bool_decide (qualifies accumulated q)) eqn:Eq.
  - apply bool_decide_eq_true in Eq. apply Hq in Eq as (-> & -> & ->). done.
  - apply bool_decide_eq_false in Eq.
    destruct (size (word_set (PyStr.lower (q_text q))) =? 0) eqn:E1; [done |].
    destruct (size (word_set (PyStr.lower (q_text q)) ∖ filler_words) =? 0)
      eqn:E2; [done |].
    destruct (bool_decide _) eqn:E3; [| done].
    exfalso. apply Eq, Hq. done.
Qed.

Lemma check_question_match_refines cfg st accumulated :
  check_question_match cfg st accumulated
  = matchQuestion accumulated (questions cfg) (current_question_index st).
Proof.
  unfold check_question_match, matchQuestion.
  destruct (length (questions cfg) <=? current_question_index st) eqn:E.
  - apply Nat.leb_le in E.
    by replace (length (questions cfg) - current_question_index st) with 0 by lia.
  - apply Nat.leb_gt in E.
    pose proof (match_loop_matchQuestion accumulated
                  (take (current_question_index st) (questions cfg))
                  (drop (current_question_index st) (questions cfg))) as H.
    rewrite take_drop, length_take, length_drop in H.
    by replace (current_question_index st `min` length (questions cfg))
      with (current_question_index st) in H by lia.
Qed.

(** C3. For every accumulated text, question list and cursor, the matcher
    returns the first index from the cursor on, below the number of
    questions, whose question qualifies (raw and meaningful word sets not
    empty, share of its meaningful words found in the accumulated text at
    least 0.40); it returns none when no such question is left, in
    particular for the empty text and for a cursor past the last question. *)
Theorem check_question_match_first_qualifying cfg st accumulated :
  match check_question_match cfg st accumulated with
  | Some i =>
      current_question_index st ≤ i < length (questions cfg)
      ∧ (∃ q, questions cfg !! i = Some q ∧ qualifies accumulated q)
      ∧ ∀ j q, current_question_index st ≤ j < i →
               questions cfg !! j = Some q → ¬ qualifies accumulated q
  | None =>
      ∀ j q, current_question_index st ≤ j →
             questions cfg !! j = Some q → ¬ qualifies accumulated q
  end
  ∧ check_question_match cfg st "" = None
  ∧ (length (questions cfg) ≤ current_question_index st →
     check_question_match cfg st accumulated = None).
Proof.
  split_and!.
  - apply check_question_match_cases.
  - pose proof (check_question_match_cases cfg st "") as H.
    destruct (check_question_match cfg st "") as [i|]; [| done].
    destruct H as (_ & (q & _ & Hq) & _).
    apply qualifies_common in Hq. rewrite meaningful_empty_text in Hq.
    exfalso. apply Hq. apply set_eq. intros w.
    rewrite elem_of_intersection, elem_of_empty. tauto.
  - apply check_question_match_past_end.
Qed.

(** ** The latch *)

Lemma mark_complete_set cfg reason st :
  is_complete (mark_complete cfg reason st) = true.
Proof. unfold mark_complete. destruct st as [? ? ? ? ? []]; branches; done. Qed.

Lemma mark_complete_noop cfg reason st :
  is_complete st = true → mark_complete cfg reason st = st.
Proof. unfold mark_complete. by intros ->. Qed.

Lemma mark_complete_first cfg reason st :
  is_complete st = false →
  mark_complete cfg reason st
  = (if completion_callback cfg
     then set_callback_calls (S (callback_calls st)) else id)
      (set_is_complete true
         (set_completion_log (completion_log st ++ [reason]) st)).
Proof.
  unfold mark_complete. intros ->. cbn [negb].
  destruct (completion_callback cfg); done.
Qed.

Lemma mark_complete_idem cfg r1 r2 st :
  mark_complete cfg r2 (mark_complete cfg r1 st) = mark_complete cfg r1 st.
Proof. apply mark_complete_noop, mark_complete_set. Qed.

(** What a call of [_mark_complete] may change. *)
Lemma mark_complete_frame cfg reason st :
  let st' := mark_complete cfg reason st in
  questions_asked st' = questions_asked st
  ∧ current_question_index st' = current_question_index st
  ∧ agent_closing_phrases st' = agent_closing_phrases st
  ∧ last_agent_speech_time st' = last_agent_speech_time st
  ∧ interview_start_time st' = interview_start_time st
  ∧ transcript st' = transcript st
  ∧ agent_speech_accumulator st' = agent_speech_accumulator st
  ∧ accumulator_last_update st' = accumulator_last_update st
  ∧ sent st' = sent st.
Proof.
  unfold mark_complete. destruct st as [? ? ? ? ? []]; branches; done.
Qed.

Lemma mark_complete_calls cfg reason st :
  callback_calls (mark_complete cfg reason st)
  = callback_calls st
    + (if negb (is_complete st) && completion_callback cfg then 1 else 0).
Proof.
  unfold mark_complete.
  destruct st as [? ? ? ? ? []], (completion_callback cfg);
    unfold_setters; fields; lia.
Qed.

Lemma mark_complete_log cfg reason st :
  completion_log (mark_complete cfg reason st)
  = completion_log st ++ (if is_complete st then [] else [reason]).
Proof.
  unfold mark_complete.
  destruct st as [? ? ? ? ? []], (completion_callback cfg);
    unfold_setters; fields; by rewrite ?app_nil_r.
Qed.

Lemma mark_all_noop cfg reasons st :
  is_complete st = true → mark_all cfg reasons st = st.
Proof.
  revert st. induction reasons as [|r rs IH]; intros st H; [done |].
  unfold mark_all in *. simpl. rewrite mark_complete_noop by done. by apply IH.
Qed.

Lemma mark_all_cons cfg reason reasons st :
  mark_all cfg (reason :: reasons) st = mark_complete cfg reason st.
Proof.
  unfold mark_all. simpl. apply (mark_all_noop cfg reasons), mark_complete_set.
Qed.

(** ** The evaluator *)

Lemma check_completion_frame cfg now st :
  let st' := check_completion cfg now st in
  questions_asked st' = questions_asked st
  ∧ current_question_index st' = current_question_index st
  ∧ agent_closing_phrases st' = agent_closing_phrases st
  ∧ last_agent_speech_time st' = last_agent_speech_time st
  ∧ interview_start_time st' = interview_start_time st
  ∧ transcript st' = transcript st
  ∧ agent_speech_accumulator st' = agent_speech_accumulator st
  ∧ accumulator_last_update st' = accumulator_last_update st
  ∧ sent st' = sent st.
Proof.
  unfold check_completion. cbv zeta.
  destruct (_ && _); [apply mark_complete_frame | done].
Qed.

(** After [setup] at a non-zero clock reading, [duration_minutes] is the
    time elapsed since the start, in minutes. *)
Lemma duration_minutes_started now t0 st :
  interview_start_time st = Some t0 → t0 ≠ 0%Qc →
  duration_minutes now st = ((now - t0) / Qc_of_Z 60)%Qc.
Proof.
  intros H Hne. unfold duration_minutes. rewrite H.
  by rewrite bool_decide_eq_false_2.
Qed.

(** C2. [_check_completion] leaves the latch set exactly when it was set
    before or a closing phrase has been seen and the question count or the
    duration suffices; with no question counted, more than one question
    expected and the duration below the minimum, it changes nothing, closing
    phrase or not. The duration is the time since a start at a non-zero
    clock reading, in minutes. *)
Theorem check_completion_decision cfg now st :
  is_complete (check_completion cfg now st)
  = is_complete st
    || (bool_decide (agent_closing_phrases st ≠ [])
        && (bool_decide (Z.of_nat (expected_questions cfg) - 1
                         ≤ Z.of_nat (questions_asked st))%Z
            || bool_decide (Qc_of_Z (minimum_duration_minutes cfg)
                            ≤ duration_minutes now st)%Qc))
  ∧ (questions_asked st = 0 →
     1 < expected_questions cfg →
     (duration_minutes now st < Qc_of_Z (minimum_duration_minutes cfg))%Qc →
     check_completion cfg now st = st)
  ∧ (∀ t0, interview_start_time st = Some t0 → t0 ≠ 0%Qc →
           duration_minutes now st = ((now - t0) / Qc_of_Z 60)%Qc).
Proof.
  assert (Hc : has_closing_phrase st = bool_decide (agent_closing_phrases st ≠ [])).
  { unfold has_closing_phrase. destruct (agent_closing_phrases st); done. }
  assert (Hq : enough_questions cfg st
               = bool_decide (Z.of_nat (expected_questions cfg) - 1
                              ≤ Z.of_nat (questions_asked st))%Z).
  { unfold enough_questions.
    destruct (Z.leb_spec (Z.of_nat (expected_questions cfg) - 1)
                (Z.of_nat (questions_asked st))).
    - by rewrite bool_decide_eq_true_2.
    - rewrite bool_decide_eq_false_2; [done | lia]. }
  split_and!.
  - unfold check_completion. rewrite Hc, Hq. unfold enough_time.
    destruct (bool_decide (agent_closing_phrases st ≠ []) && _) eqn:E.
    + rewrite mark_complete_set. by rewrite orb_true_r.
    + by rewrite orb_false_r.
  - intros Hasked Hexp Hdur. unfold check_completion.
    rewrite Hq. unfold enough_time.
    rewrite (bool_decide_eq_false_2 (_ ≤ _)%Z) by lia.
    rewrite (bool_decide_eq_false_2 (_ ≤ _)%Qc) by (by apply Qclt_not_le).
    by rewrite andb_false_r.
  - intros t0. apply duration_minutes_started.
Qed.

(** C8. When the wait ends by the timeout, [wait_for_completion] itself
    calls [_mark_complete] with the timeout as the reason: the latch is set,
    and if it was not set before, the timeout reason is logged and the
    callback (when given) runs; when the wait ends because the latch was
    observed, it only returns. The default timeout is 900 seconds. *)
Theorem wait_for_completion_timeout_completes cfg timeout st :
  is_complete (wait_for_completion cfg timeout TimeoutError st) = true
  ∧ completion_log (wait_for_completion cfg timeout TimeoutError st)
    = completion_log st
      ++ (if is_complete st then [] else [ReasonTimeout timeout])
  ∧ callback_calls (wait_for_completion cfg timeout TimeoutError st)
    = callback_calls st
      + (if negb (is_complete st) && completion_callback cfg then 1 else 0)
  ∧ wait_for_completion cfg timeout LatchObserved st = st
  ∧ default_timeout = Qc_of_Z 900.
Proof.
  unfold wait_for_completion. split_and!.
  - apply mark_complete_set.
  - apply mark_complete_log.
  - apply mark_complete_calls.
  - done.
  - done.
Qed.

(** ** The flush of the accumulator *)

Lemma check_question_match_range cfg st accumulated i :
  check_question_match cfg st accumulated = Some i →
  current_question_index st ≤ i ∧ is_Some (questions cfg !! i).
Proof.
  intros H. pose proof (check_question_match_cases cfg st accumulated) as Hc.
  rewrite H in Hc. destruct Hc as (Hi & (q & Hq & _) & _). split; [lia | eauto].
Qed.

(** The flush never raises: the matched index is a valid one, and it is
    never before the cursor. *)
Lemma check_accumulator_flushed cfg st :
  check_accumulator_for_question cfg st = Returned (flushed cfg st).
Proof.
  unfold check_accumulator_for_question, flushed.
  destruct (agent_speech_accumulator st) as [|c acc] eqn:Eacc; [done |].
  cbn [PyStr.truthy negb].
  destruct (check_question_match cfg st (String c acc)) as [i|] eqn:Em; [| done].
  apply check_question_match_range in Em as [Hle [q Hq]].
  apply Nat.leb_le in Hle. rewrite Hle, Hq. done.
Qed.

Lemma returned_state_of r : returns r = true → r = Returned (state_of r).
Proof. by destruct r. Qed.


(** What a flush leaves alone. *)
Lemma flushed_frame cfg st :
  let st' := flushed cfg st in
  agent_closing_phrases st' = agent_closing_phrases st
  ∧ last_agent_speech_time st' = last_agent_speech_time st
  ∧ interview_start_time st' = interview_start_time st
  ∧ is_complete st' = is_complete st
  ∧ transcript st' = transcript st
  ∧ accumulator_last_update st' = accumulator_last_update st
  ∧ callback_calls st' = callback_calls st
  ∧ completion_log st' = completion_log st.
Proof.
  unfold flushed, send_progress_event. cbv zeta.
  destruct (agent_speech_accumulator st); [done |].
  destruct (check_question_match _ _ _); [| by unfold_setters].
  destruct (_ || _); unfold_setters; fields; done.
Qed.

(** The counters after a flush: both are one past the matched index, which
    is at or after the cursor; without a match neither moves. *)
Lemma flushed_progress cfg st :
  let st' := flushed cfg st in
  (questions_asked st' = questions_asked st
   ∧ current_question_index st' = current_question_index st)
  ∨ (∃ matched_idx,
       current_question_index st ≤ matched_idx < length (questions cfg)
       ∧ questions_asked st' = matched_idx + 1
       ∧ current_question_index st' = matched_idx + 1).
Proof.
  unfold flushed. cbv zeta.
  destruct (agent_speech_accumulator st) as [|c acc]; [by left |].
  destruct (check_question_match cfg st (String c acc)) as [i|] eqn:Em.
  - right. exists i. apply check_question_match_range in Em as [Hle [q Hq]].
    apply lookup_lt_Some in Hq. unfold send_progress_event.
    destruct (_ || _); unfold_setters; fields; done.
  - left. by unfold_setters.
Qed.

Lemma flush_on_gap_returns cfg now st :
  flush_on_gap cfg now st
  = Returned (match accumulator_last_update st with
              | Some last =>
                  if bool_decide (ACCUMULATOR_GAP_THRESHOLD < now - last)%Qc
                  then flushed cfg st else st
              | None => st
              end).
Proof.
  unfold flush_on_gap. destruct (accumulator_last_update st); [| done].
  cbv zeta. destruct (bool_decide _); [apply check_accumulator_flushed | done].
Qed.

(** The state after the gap check is the state before it, or its flush. *)
Lemma flush_on_gap_cases cfg now st :
  state_of (flush_on_gap cfg now st) = st
  ∨ state_of (flush_on_gap cfg now st) = flushed cfg st.
Proof.
  rewrite flush_on_gap_returns. cbn [state_of].
  destruct (accumulator_last_update st); [| by left].
  destruct (bool_decide _); [by right | by left].
Qed.

(** What recording an agent fragment leaves alone, raised or not. *)
Lemma record_agent_speech_frame cfg txt now st :
  let st' := state_of (record_agent_speech cfg txt now st) in
  questions_asked st' = questions_asked st
  ∧ current_question_index st' = current_question_index st
  ∧ agent_closing_phrases st' = agent_closing_phrases st
  ∧ last_agent_speech_time st' = last_agent_speech_time st
  ∧ interview_start_time st' = interview_start_time st
  ∧ is_complete st' = is_complete st
  ∧ callback_calls st' = callback_calls st
  ∧ completion_log st' = completion_log st.
Proof.
  unfold record_agent_speech, send_transcript_event. cbv zeta.
  destruct (PyStr.truthy txt); [| done].
  destruct (interview_start_time st) eqn:E; [| done].
  destruct (_ || _); unfold_setters; fields;
    destruct (PyStr.truthy (agent_speech_accumulator st)); fields; done.
Qed.

Lemma record_user_speech_frame cfg txt now st :
  let st' := state_of (record_user_speech cfg txt now st) in
  questions_asked st' = questions_asked st
  ∧ current_question_index st' = current_question_index st
  ∧ agent_closing_phrases st' = agent_closing_phrases st
  ∧ last_agent_speech_time st' = last_agent_speech_time st
  ∧ interview_start_time st' = interview_start_time st
  ∧ is_complete st' = is_complete st
  ∧ agent_speech_accumulator st' = agent_speech_accumulator st
  ∧ accumulator_last_update st' = accumulator_last_update st
  ∧ callback_calls st' = callback_calls st
  ∧ completion_log st' = completion_log st.
Proof.
  unfold record_user_speech, send_transcript_event. cbv zeta.
  destruct (_ && _); [| done].
  destruct (interview_start_time st) eqn:E; [| done].
  destruct (_ || _); unfold_setters; fields; done.
Qed.

(** Recording raises only when the start time was never taken. *)
Lemma record_agent_speech_returns cfg txt now st :
  is_Some (interview_start_time st) →
  returns (record_agent_speech cfg txt now st) = true.
Proof.
  intros [t0 H]. unfold record_agent_speech. rewrite H.
  by destruct (PyStr.truthy txt).
Qed.

Lemma record_user_speech_returns cfg txt now st :
  is_Some (interview_start_time st) →
  returns (record_user_speech cfg txt now st) = true.
Proof.
  intros [t0 H]. unfold record_user_speech. rewrite H.
  by destruct (_ && _).
Qed.

(** ** The closing-phrase block *)

Lemma wrap_up_reached_frame cfg st :
  let st' := wrap_up_reached cfg st in
  questions_asked st' = questions_asked st
  ∧ agent_closing_phrases st' = agent_closing_phrases st
  ∧ last_agent_speech_time st' = last_agent_speech_time st
  ∧ interview_start_time st' = interview_start_time st
  ∧ is_complete st' = is_complete st
  ∧ transcript st' = transcript st
  ∧ agent_speech_accumulator st' = agent_speech_accumulator st
  ∧ accumulator_last_update st' = accumulator_last_update st
  ∧ callback_calls st' = callback_calls st
  ∧ completion_log st' = completion_log st.
Proof.
  unfold wrap_up_reached, send_progress_event. cbv zeta.
  destruct (_ <? _); [| done].
  destruct (_ || _); unfold_setters; fields; done.
Qed.

Lemma wrap_up_reached_cursor cfg st :
  current_question_index (wrap_up_reached cfg st)
  = current_question_index st `max` length (questions cfg).
Proof.
  unfold wrap_up_reached.
  destruct (Nat.ltb_spec (current_question_index st) (length (questions cfg))).
  - unfold_setters; fields. lia.
  - lia.
Qed.

(** The block never raises: below the number of questions there is a last
    question. *)
Lemma detect_closing_returns cfg txt text_lower now_check st :
  detect_closing cfg txt text_lower now_check st
  = Returned
      (if existsb (fun keyword => PyStr.contains keyword text_lower)
            closing_keywords
       then check_completion cfg now_check
              (wrap_up_reached cfg
                 (set_agent_closing_phrases (agent_closing_phrases st ++ [txt]) st))
       else st).
Proof.
  unfold detect_closing, wrap_up_reached.
  destruct (existsb _ _); [| done]. cbv zeta.
  set (st1 := set_agent_closing_phrases _ st).
  destruct (Nat.ltb_spec (current_question_index st1) (length (questions cfg)))
    as [Hlt|Hge]; [| done].
  destruct (questions cfg !! (length (questions cfg) - 1)) as [q|] eqn:Hq.
  - done.
  - apply lookup_ge_None in Hq. lia.
Qed.

Lemma detect_closing_frame cfg txt text_lower now_check st :
  let st' := state_of (detect_closing cfg txt text_lower now_check st) in
  questions_asked st' = questions_asked st
  ∧ current_question_index st ≤ current_question_index st'
  ∧ last_agent_speech_time st' = last_agent_speech_time st
  ∧ interview_start_time st' = interview_start_time st
  ∧ transcript st' = transcript st
  ∧ agent_speech_accumulator st' = agent_speech_accumulator st
  ∧ accumulator_last_update st' = accumulator_last_update st.
Proof.
  rewrite detect_closing_returns. cbn [state_of]. cbv zeta.
  destruct (existsb _ _); [| done].
  set (st1 := set_agent_closing_phrases _ st).
  pose proof (check_completion_frame cfg now_check (wrap_up_reached cfg st1))
    as (-> & -> & _ & -> & -> & -> & -> & -> & _).
  pose proof (wrap_up_reached_frame cfg st1)
    as (-> & _ & -> & -> & _ & -> & -> & -> & _).
  rewrite wrap_up_reached_cursor. subst st1. unfold_setters; fields.
  split_and!; try done. lia.
Qed.

(** ** The handlers return *)

Lemma on_agent_speech_returns cfg event_text now now_check st :
  is_Some (interview_start_time st) →
  returns (on_agent_speech cfg event_text now now_check st) = true.
Proof.
  intros Hs. unfold on_agent_speech. cbv zeta.
  rewrite flush_on_gap_returns. cbn [bind].
  match goal with |- context [record_agent_speech cfg ?t now ?s] =>
    pose proof (record_agent_speech_returns cfg t now s) as Hr;
    destruct (record_agent_speech cfg t now s) as [s'|e s']
  end.
  - cbn [bind]. by rewrite detect_closing_returns.
  - cbn [returns] in Hr. apply Hr.
    destruct (accumulator_last_update st); [| done].
    destruct (bool_decide _); [| done].
    by destruct (flushed_frame cfg st) as (_ & _ & -> & _).
Qed.

Lemma on_user_speech_returns cfg event_text now st :
  is_Some (interview_start_time st) →
  returns (on_user_speech cfg event_text now st) = true.
Proof.
  intros Hs. unfold on_user_speech. cbv zeta.
  rewrite check_accumulator_flushed. cbn [bind].
  match goal with |- context [record_user_speech cfg ?t now ?s] =>
    pose proof (record_user_speech_returns cfg t now s) as Hr;
    destruct (record_user_speech cfg t now s) as [s'|e s']
  end.
  - cbn [bind]. by destruct (_ || _).
  - cbn [returns] in Hr. apply Hr.
    by destruct (flushed_frame cfg st) as (_ & _ & -> & _).
Qed.

Lemma step_returns cfg ev st :
  is_Some (interview_start_time st) → returns (step cfg ev st) = true.
Proof.
  destruct ev; cbn [step returns]; [apply on_agent_speech_returns
                                   | apply on_user_speech_returns | done].
Qed.

(** ** The counters along a conversation *)

Lemma check_accumulator_progress cfg st :
  questions_asked st ≤ current_question_index st →
  let st' := state_of (check_accumulator_for_question cfg st) in
  questions_asked st ≤ questions_asked st'
  ∧ current_question_index st ≤ current_question_index st'
  ∧ questions_asked st' ≤ current_question_index st'.
Proof.
  intros Hinv. rewrite check_accumulator_flushed. cbn [state_of]. cbv zeta.
  destruct (flushed_progress cfg st) as [[-> ->] | (i & Hi & -> & ->)]; lia.
Qed.

Lemma flush_on_gap_progress cfg now st :
  questions_asked st ≤ current_question_index st →
  let st' := state_of (flush_on_gap cfg now st) in
  questions_asked st ≤ questions_asked st'
  ∧ current_question_index st ≤ current_question_index st'
  ∧ questions_asked st' ≤ current_question_index st'.
Proof.
  intros Hinv. cbv zeta.
  destruct (flush_on_gap_cases cfg now st) as [-> | ->]; [lia |].
  pose proof (check_accumulator_progress cfg st Hinv) as H.
  by rewrite check_accumulator_flushed in H.
Qed.

Lemma on_agent_speech_progress cfg event_text now now_check st :
  questions_asked st ≤ current_question_index st →
  let st' := state_of (on_agent_speech cfg event_text now now_check st) in
  questions_asked st ≤ questions_asked st'
  ∧ current_question_index st ≤ current_question_index st'
  ∧ questions_asked st' ≤ current_question_index st'.
Proof.
  intros Hinv. cbv zeta. unfold on_agent_speech. cbv zeta.
  pose proof (flush_on_gap_progress cfg now st Hinv) as Hgap. cbv zeta in Hgap.
  rewrite flush_on_gap_returns in *. cbn [bind state_of] in *.
  match goal with |- context [record_agent_speech cfg ?t now ?s] =>
    set (st1 := s) in *;
    pose proof (record_agent_speech_frame cfg t now st1) as Hrec;
    destruct (record_agent_speech cfg t now st1) as [st2|e st2]
  end; cbv zeta in Hrec; cbn [state_of bind] in *;
    destruct Hrec as (Hqa & Hcur & _).
  - match goal with |- context [detect_closing cfg ?t ?tl now_check ?s] =>
      pose proof (detect_closing_frame cfg t tl now_check s) as (Hq & Hc & _)
    end.
    unfold_setters; fields. lia.
  - lia.
Qed.

Lemma on_user_speech_progress cfg event_text now st :
  questions_asked st ≤ current_question_index st →
  let st' := state_of (on_user_speech cfg event_text now st) in
  questions_asked st ≤ questions_asked st'
  ∧ current_question_index st ≤ current_question_index st'
  ∧ questions_asked st' ≤ current_question_index st'.
Proof.
  intros Hinv. cbv zeta. unfold on_user_speech. cbv zeta.
  pose proof (check_accumulator_progress cfg st Hinv) as Hfl. cbv zeta in Hfl.
  rewrite check_accumulator_flushed in *. cbn [bind state_of] in *.
  pose proof (record_user_speech_frame cfg (PyStr.strip event_text) now
                (flushed cfg st)) as Hrec.
  destruct (record_user_speech cfg (PyStr.strip event_text) now (flushed cfg st))
    as [st2|e st2]; cbv zeta in Hrec; cbn [state_of bind] in *;
    destruct Hrec as (Hqa & Hcur & _); [| lia].
  destruct (_ || _); cbn [state_of]; [| lia].
  destruct (mark_complete_frame cfg ReasonUserGoodbye st2) as (-> & -> & _). lia.
Qed.

Lemma step_progress cfg ev st :
  questions_asked st ≤ current_question_index st →
  let st' := state_of (step cfg ev st) in
  questions_asked st ≤ questions_asked st'
  ∧ current_question_index st ≤ current_question_index st'
  ∧ questions_asked st' ≤ current_question_index st'.
Proof.
  intros Hinv. destruct ev as [t now chk | t now | timeout outcome]; cbn [step].
  - by apply on_agent_speech_progress.
  - by apply on_user_speech_progress.
  - cbn [state_of]. cbv zeta. unfold wait_for_completion.
    destruct outcome; [lia |].
    destruct (mark_complete_frame cfg (ReasonTimeout timeout) st) as (-> & -> & _).
    lia.
Qed.

Lemma run_progress cfg evs st :
  questions_asked st ≤ current_question_index st →
  questions_asked st ≤ questions_asked (run cfg evs st)
  ∧ current_question_index st ≤ current_question_index (run cfg evs st)
  ∧ questions_asked (run cfg evs st) ≤ current_question_index (run cfg evs st).
Proof.
  revert st. induction evs as [|ev evs IH]; intros st Hinv; [cbn; lia |].
  cbn [run]. destruct (step_progress cfg ev st Hinv) as (H1 & H2 & H3).
  destruct (IH _ H3) as (H4 & H5 & H6). lia.
Qed.

(** Delivered one at a time, the events of a conversation that starts from
    a fresh processor never decrease the cursor or the count of questions
    asked, from one state between events to any later one; nor does the
    closing-phrase block applied to any state. *)
Theorem progress_never_decreases cfg t0 evs1 evs2 :
  let s1 := run cfg evs1 (setup t0 init_state) in
  let s2 := run cfg evs2 s1 in
  current_question_index s1 ≤ current_question_index s2
  ∧ questions_asked s1 ≤ questions_asked s2
  ∧ (∀ txt text_lower now_check st,
       let st' := state_of (detect_closing cfg txt text_lower now_check st) in
       current_question_index st ≤ current_question_index st'
       ∧ questions_asked st ≤ questions_asked st').
Proof.
  cbv zeta.
  assert (H0 : questions_asked (setup t0 init_state)
               ≤ current_question_index (setup t0 init_state)) by (cbn; lia).
  destruct (run_progress cfg evs1 _ H0) as (_ & _ & H1).
  destruct (run_progress cfg evs2 _ H1) as (H2 & H3 & _).
  split_and!; [done | done |].
  intros txt tl chk st.
  destruct (detect_closing_frame cfg txt tl chk st) as (-> & Hc & _). lia.
Qed.

(** C4, on the code. The guard of [_check_accumulator_for_question]
    ([matched_idx >= self.current_question_index]) is tested before the
    [await] of the progress notification and the counters are assigned
    after it. On the sample conversation, with the flush of the user's turn
    suspended there while the agent's closing fragment is handled: before
    the flush is resumed the cursor is 3; the resumed flush assigns 1 to
    it. *)
Theorem interleaved_flush_lowers_cursor :
  in_flight (exec demo_config race_before_resume (mkWorld started []))
  = [UserInFlush 0 "It started in school" (Qc_of_Z 1002)]
  ∧ current_question_index
      (processor (exec demo_config race_before_resume (mkWorld started [])))
    = 3
  ∧ current_question_index
      (processor (exec demo_config (race_before_resume ++ [Resume 0])
                    (mkWorld started [])))
    = 1
  ∧ questions_asked
      (processor (exec demo_config (race_before_resume ++ [Resume 0])
                    (mkWorld started [])))
    = 1.
Proof. split_and!; by vm_compute. Qed.

(** C10. A processor whose count of questions asked does not exceed its
    cursor keeps that property through every handler; a flush leaves both
    counters alone or sets both to the same value, and the closing-phrase
    block moves the cursor to the number of questions (unless it is already
    past it) and leaves the count alone. A fresh processor has the
    property. *)
Theorem asked_at_most_cursor cfg ev st
    (Hinv : questions_asked st ≤ current_question_index st) :
  questions_asked (state_of (step cfg ev st))
    ≤ current_question_index (state_of (step cfg ev st))
  ∧ (let st' := state_of (check_accumulator_for_question cfg st) in
     (questions_asked st' = questions_asked st
      ∧ current_question_index st' = current_question_index st)
     ∨ (questions_asked st' = current_question_index st'
        ∧ current_question_index st < current_question_index st'))
  ∧ (∀ txt text_lower now_check,
       existsb (fun keyword => PyStr.contains keyword text_lower)
         closing_keywords = true →
       let st' := state_of (detect_closing cfg txt text_lower now_check st) in
       questions_asked st' = questions_asked st
       ∧ current_question_index st'
         = current_question_index st `max` length (questions cfg))
  ∧ questions_asked init_state ≤ current_question_index init_state.
Proof.
  split_and!.
  - by apply step_progress.
  - cbv zeta. rewrite check_accumulator_flushed. cbn [state_of].
    destruct (flushed_progress cfg st) as [H | (i & Hi & -> & ->)];
      [by left | right; lia].
  - intros txt tl chk Hk. cbv zeta.
    rewrite detect_closing_returns, Hk. cbn [state_of].
    set (st1 := set_agent_closing_phrases _ st).
    destruct (check_completion_frame cfg chk (wrap_up_reached cfg st1))
      as (-> & -> & _).
    destruct (wrap_up_reached_frame cfg st1) as (-> & _).
    by rewrite wrap_up_reached_cursor.
  - cbn. lia.
Qed.

(** ** Notifications *)

Lemma notifier_configured_negb cfg :
  negb (call cfg) || negb (PyStr.truthy (agent_user_id cfg))
  = negb (notifier_configured cfg).
Proof. unfold notifier_configured. by destruct (call cfg), (PyStr.truthy _). Qed.

Lemma send_progress_event_sent cfg i category st :
  sent (send_progress_event cfg i category st)
  = sent st ++ (if notifier_configured cfg
                then [NProgress i category (expected_questions cfg)] else []).
Proof.
  unfold send_progress_event. rewrite notifier_configured_negb.
  destruct (notifier_configured cfg); cbn [negb]; [done | by rewrite app_nil_r].
Qed.

Lemma send_transcript_event_sent cfg sp txt ts st :
  sent (send_transcript_event cfg sp txt ts st)
  = sent st ++ (if notifier_configured cfg then [NTranscript sp txt ts] else []).
Proof.
  unfold send_transcript_event. rewrite notifier_configured_negb.
  destruct (notifier_configured cfg); cbn [negb]; [done | by rewrite app_nil_r].
Qed.

Lemma wrap_up_reached_sent cfg st :
  sent (wrap_up_reached cfg st)
  = sent st
    ++ (if (current_question_index st <? length (questions cfg))
           && notifier_configured cfg
        then [NProgress (length (questions cfg) - 1)
                (from_option q_category ""
                   (questions cfg !! (length (questions cfg) - 1)))
                (expected_questions cfg)]
        else []).
Proof.
  unfold wrap_up_reached. destruct (_ <? _); cbn [andb].
  - unfold set_current_question_index. cbn [sent].
    apply send_progress_event_sent.
  - by rewrite app_nil_r.
Qed.

(** The flush, spelled out on each attribute it assigns. *)
Lemma flushed_match cfg st :
  agent_speech_accumulator st ≠ "" →
  match check_question_match cfg st (agent_speech_accumulator st) with
  | Some matched_idx =>
      current_question_index st ≤ matched_idx
      ∧ current_question_index (flushed cfg st) = matched_idx + 1
      ∧ questions_asked (flushed cfg st) = matched_idx + 1
      ∧ ∃ q, questions cfg !! matched_idx = Some q
             ∧ sent (flushed cfg st)
               = sent st ++ (if notifier_configured cfg
                             then [NProgress matched_idx (q_category q)
                                     (expected_questions cfg)]
                             else [])
  | None =>
      current_question_index (flushed cfg st) = current_question_index st
      ∧ questions_asked (flushed cfg st) = questions_asked st
      ∧ sent (flushed cfg st) = sent st
  end.
Proof.
  intros Hacc. unfold flushed.
  destruct (agent_speech_accumulator st) as [|c acc]; [done |].
  destruct (check_question_match cfg st (String c acc)) as [i|] eqn:Em.
  - apply check_question_match_range in Em as [Hle [q Hq]]. rewrite Hq.
    unfold_setters; fields. split_and!; [done | done | done |].
    exists q. split; [done |]. apply send_progress_event_sent.
  - by unfold_setters.
Qed.

Lemma flushed_sent_prefix cfg st : ∃ rest, sent (flushed cfg st) = sent st ++ rest.
Proof.
  destruct (agent_speech_accumulator st) as [|c acc] eqn:E.
  - exists []. unfold flushed. by rewrite E, app_nil_r.
  - assert (Hne : agent_speech_accumulator st ≠ "") by (by rewrite E).
    pose proof (flushed_match cfg st Hne) as H.
    destruct (check_question_match _ _ _).
    + destruct H as (_ & _ & _ & q & _ & ->). eauto.
    + destruct H as (_ & _ & ->). exists []. by rewrite app_nil_r.
Qed.

(** ** The agent handler, attribute by attribute *)

Lemma record_agent_speech_buffer cfg txt now st :
  is_Some (interview_start_time st) →
  let st' := state_of (record_agent_speech cfg txt now st) in
  agent_speech_accumulator st'
  = (if PyStr.truthy txt
     then if PyStr.truthy (agent_speech_accumulator st)
          then PyStr.join_space (agent_speech_accumulator st) txt
          else txt
     else agent_speech_accumulator st)
  ∧ accumulator_last_update st'
    = (if PyStr.truthy txt then Some now else accumulator_last_update st)
  ∧ text <$> transcript st'
    = (text <$> transcript st) ++ (if PyStr.truthy txt then [txt] else [])
  ∧ ∃ ts, sent st'
          = sent st ++ (if PyStr.truthy txt && notifier_configured cfg
                        then [NTranscript agent txt ts] else []).
Proof.
  intros [t0 H]. unfold record_agent_speech. rewrite H. cbv zeta.
  destruct (PyStr.truthy txt); cbn [state_of andb].
  - unfold send_transcript_event. rewrite notifier_configured_negb.
    destruct (notifier_configured cfg); cbn [negb];
      unfold_setters; fields;
      destruct (PyStr.truthy (agent_speech_accumulator st)); fields;
      (split_and!; [done | done | by rewrite fmap_app |]);
      eexists; by rewrite ?app_nil_r.
  - rewrite !app_nil_r. split_and!; try done; by exists 0%Qc.
Qed.

Lemma on_agent_speech_effect cfg event_text now now_check st :
  is_Some (interview_start_time st) →
  let txt := PyStr.strip event_text in
  let st1 := state_of (flush_on_gap cfg now st) in
  let st' := state_of (on_agent_speech cfg event_text now now_check st) in
  agent_speech_accumulator st'
  = (if PyStr.truthy txt
     then if PyStr.truthy (agent_speech_accumulator st1)
          then PyStr.join_space (agent_speech_accumulator st1) txt
          else txt
     else agent_speech_accumulator st1)
  ∧ accumulator_last_update st'
    = (if PyStr.truthy txt then Some now else accumulator_last_update st)
  ∧ interview_start_time st' = interview_start_time st
  ∧ questions_asked st' = questions_asked st1
  ∧ current_question_index st1 ≤ current_question_index st'
  ∧ text <$> transcript st'
    = (text <$> transcript st) ++ (if PyStr.truthy txt then [txt] else [])
  ∧ ∃ rest, sent st' = sent st1 ++ rest.
Proof.
  intros Hs. cbv zeta. unfold on_agent_speech. cbv zeta.
  assert (Hs1 : interview_start_time (state_of (flush_on_gap cfg now st))
                = interview_start_time st
                ∧ accumulator_last_update (state_of (flush_on_gap cfg now st))
                  = accumulator_last_update st
                ∧ transcript (state_of (flush_on_gap cfg now st))
                  = transcript st).
  { destruct (flush_on_gap_cases cfg now st) as [-> | ->]; [done |].
    by destruct (flushed_frame cfg st) as (_ & _ & -> & _ & -> & -> & _). }
  destruct Hs1 as (Hst & Hlu & Htr).
  rewrite (returned_state_of (flush_on_gap cfg now st))
    by (by rewrite flush_on_gap_returns).
  cbn [bind]. set (st1 := state_of (flush_on_gap cfg now st)) in *.
  assert (Hs1 : is_Some (interview_start_time st1)) by (by rewrite Hst).
  pose proof (record_agent_speech_returns cfg (PyStr.strip event_text) now st1 Hs1)
    as Hret.
  pose proof (record_agent_speech_buffer cfg (PyStr.strip event_text) now st1 Hs1)
    as (Hacc & Hupd & Htxt & ts & Hsent).
  pose proof (record_agent_speech_frame cfg (PyStr.strip event_text) now st1)
    as (Hqa & Hcur & _ & _ & Hstart & _).
  rewrite (returned_state_of _ Hret). cbn [bind].
  set (st2 := state_of (record_agent_speech cfg (PyStr.strip event_text) now st1))
    in *.
  rewrite detect_closing_returns. cbn [state_of].
  destruct (existsb _ _).
  - set (st3 := set_agent_closing_phrases _ _).
    destruct (check_completion_frame cfg now_check (wrap_up_reached cfg st3))
      as (-> & -> & _ & _ & -> & -> & -> & -> & ->).
    destruct (wrap_up_reached_frame cfg st3)
      as (-> & _ & _ & -> & _ & -> & -> & -> & _).
    rewrite wrap_up_reached_cursor, wrap_up_reached_sent.
    subst st3. unfold_setters; fields.
    rewrite Hacc, Hupd, Hstart, Hqa, Hcur, Htxt, Hsent, Hst, Hlu, Htr.
    split_and!; try done; [lia |]. rewrite <- app_assoc. eauto.
  - unfold_setters; fields.
    rewrite Hacc, Hupd, Hstart, Hqa, Hcur, Htxt, Hsent, Hst, Hlu, Htr.
    split_and!; try done. eauto.
Qed.



(** C5 (as the code has it). When the lower-cased text of an agent
    fragment contains a closing keyword, the trimmed text is appended to the
    closing phrases; if the cursor (after the gap check of the same call) is
    below the number of questions [N], the cursor becomes [N], one past the
    last question index, and a progress notification for index [N - 1] is
    handed to the notifier; otherwise the cursor stays. The matcher is not
    consulted and the count of questions asked is not changed. *)
Theorem closing_phrase_forces_cursor cfg event_text now now_check st
    (Hstart : is_Some (interview_start_time st))
    (Hclosing :
       existsb (fun keyword => PyStr.contains keyword (PyStr.lower event_text))
         closing_keywords = true) :
  let txt := PyStr.strip event_text in
  let mid := state_of (do s <- flush_on_gap cfg now st;
                       record_agent_speech cfg txt now s) in
  let st' := state_of (on_agent_speech cfg event_text now now_check st) in
  returns (on_agent_speech cfg event_text now now_check st) = true
  ∧ agent_closing_phrases st' = agent_closing_phrases st ++ [txt]
  ∧ questions_asked st' = questions_asked mid
  ∧ agent_speech_accumulator st' = agent_speech_accumulator mid
  ∧ (current_question_index mid < length (questions cfg) →
     current_question_index st' = length (questions cfg)
     ∧ ∃ last_q,
         questions cfg !! (length (questions cfg) - 1) = Some last_q
         ∧ sent st'
           = sent mid ++ (if notifier_configured cfg
                          then [NProgress (length (questions cfg) - 1)
                                  (q_category last_q) (expected_questions cfg)]
                          else []))
  ∧ (length (questions cfg) ≤ current_question_index mid →
     current_question_index st' = current_question_index mid
     ∧ sent st' = sent mid).
Proof.
  cbv zeta. split; [by apply on_agent_speech_returns |].
  rewrite <- closing_detection_ignores_trim in Hclosing.
  unfold on_agent_speech. cbv zeta.
  assert (Hs1 : interview_start_time (state_of (flush_on_gap cfg now st))
                = interview_start_time st
                ∧ agent_closing_phrases (state_of (flush_on_gap cfg now st))
                  = agent_closing_phrases st).
  { destruct (flush_on_gap_cases cfg now st) as [-> | ->]; [done |].
    by destruct (flushed_frame cfg st) as (-> & _ & -> & _). }
  destruct Hs1 as (Hst & Hcl).
  rewrite (returned_state_of (flush_on_gap cfg now st))
    by (by rewrite flush_on_gap_returns).
  cbn [bind]. set (st1 := state_of (flush_on_gap cfg now st)) in *.
  assert (Hs1 : is_Some (interview_start_time st1)) by (by rewrite Hst).
  pose proof (record_agent_speech_returns cfg (PyStr.strip event_text) now st1 Hs1)
    as Hret.
  pose proof (record_agent_speech_frame cfg (PyStr.strip event_text) now st1)
    as (_ & _ & Hcl2 & _).
  rewrite (returned_state_of _ Hret). cbn [bind].
  set (mid := state_of (record_agent_speech cfg (PyStr.strip event_text) now st1))
    in *.
  rewrite detect_closing_returns, Hclosing. cbn [state_of].
  set (st3 := set_agent_closing_phrases _ _).
  destruct (check_completion_frame cfg now_check (wrap_up_reached cfg st3))
    as (-> & -> & -> & _ & _ & _ & -> & _ & ->).
  destruct (wrap_up_reached_frame cfg st3)
    as (-> & -> & _ & _ & _ & _ & -> & _).
  rewrite wrap_up_reached_cursor, wrap_up_reached_sent.
  subst st3. unfold_setters; fields. rewrite Hcl2, Hcl.
  split_and!; try done.
  - intros Hlt. split; [lia |].
    destruct (questions cfg !! (length (questions cfg) - 1)) as [q|] eqn:Hq.
    + exists q. split; [done |].
      apply Nat.ltb_lt in Hlt. rewrite Hlt. done.
    + apply lookup_ge_None in Hq. lia.
  - intros Hge. split; [lia |].
    apply Nat.ltb_ge in Hge. rewrite Hge. cbn [andb]. by rewrite app_nil_r.
Qed.

(** ** The user handler *)

(** C7. A user fragment whose lower-cased text contains "goodbye"
    or "bye" sets the latch in the same call, whatever the closing phrases,
    the count of questions and the duration are: if the latch was not set,
    the reason logged is the user's goodbye and the callback (when given)
    runs. *)
Theorem user_goodbye_completes cfg event_text now st
    (Hstart : is_Some (interview_start_time st))
    (Hbye :
       PyStr.contains "goodbye" (PyStr.lower event_text)
       || PyStr.contains "bye" (PyStr.lower event_text) = true) :
  let st' := state_of (on_user_speech cfg event_text now st) in
  returns (on_user_speech cfg event_text now st) = true
  ∧ is_complete st' = true
  ∧ completion_log st'
    = completion_log st ++ (if is_complete st then [] else [ReasonUserGoodbye])
  ∧ callback_calls st'
    = callback_calls st
      + (if negb (is_complete st) && completion_callback cfg then 1 else 0).
Proof.
  cbv zeta. split; [by apply on_user_speech_returns |].
  rewrite <- !(contains_lower_strip _ event_text) in Hbye by done.
  unfold on_user_speech. cbv zeta.
  rewrite check_accumulator_flushed. cbn [bind].
  assert (Hs1 : is_Some (interview_start_time (flushed cfg st))).
  { by destruct (flushed_frame cfg st) as (_ & _ & -> & _). }
  pose proof (record_user_speech_returns cfg (PyStr.strip event_text) now _ Hs1)
    as Hret.
  pose proof (record_user_speech_frame cfg (PyStr.strip event_text) now
                (flushed cfg st))
    as (_ & _ & _ & _ & _ & Hc & _ & _ & Hcalls & Hlog).
  rewrite (returned_state_of _ Hret). cbn [bind]. rewrite Hbye. cbn [state_of].
  destruct (flushed_frame cfg st) as (_ & _ & _ & Hc' & _ & _ & Hcalls' & Hlog').
  rewrite mark_complete_set, mark_complete_log, mark_complete_calls.
  by rewrite Hc, Hcalls, Hlog, Hc', Hcalls', Hlog'.
Qed.

Lemma lower_length s : String.length (PyStr.lower s) = String.length s.
Proof. induction s as [|c s IH]; simpl; congruence. Qed.

Lemma no_goodbye_in_short_text txt :
  String.length txt ≤ 1 →
  PyStr.contains "goodbye" (PyStr.lower txt)
  || PyStr.contains "bye" (PyStr.lower txt) = false.
Proof.
  intros Hlen. apply orb_false_iff.
  split; apply not_true_is_false; intros H%contains_length;
    rewrite lower_length in H; simpl in H; lia.
Qed.

Lemma no_closing_keyword_in_empty_text :
  existsb (fun keyword => PyStr.contains keyword (PyStr.lower ""))
    closing_keywords = false.
Proof. reflexivity. Qed.

(** C9 (as the code has it). A user fragment whose trimmed text has at most
    one character is skipped: the call does the turn-change flush and
    nothing else, so the transcript is as before. An agent fragment is
    skipped only when its trimmed text is empty: the call then does the gap
    check and stamps the time of the last agent speech. An agent fragment of
    one character or more is recorded in the transcript. *)
Theorem degenerate_speech_skipped cfg event_text now now_check st :
  (String.length (PyStr.strip event_text) ≤ 1 →
   on_user_speech cfg event_text now st = check_accumulator_for_question cfg st
   ∧ transcript (state_of (on_user_speech cfg event_text now st)) = transcript st)
  ∧ (PyStr.strip event_text = "" →
     on_agent_speech cfg event_text now now_check st
     = (do s <- flush_on_gap cfg now st;
        Returned (set_last_agent_speech_time (Some now) s))
     ∧ transcript (state_of (on_agent_speech cfg event_text now now_check st))
       = transcript st
     ∧ agent_speech_accumulator
         (state_of (on_agent_speech cfg event_text now now_check st))
       = agent_speech_accumulator (state_of (flush_on_gap cfg now st)))
  ∧ (is_Some (interview_start_time st) →
     PyStr.strip event_text ≠ "" →
     text <$> transcript
                (state_of (on_agent_speech cfg event_text now now_check st))
     = (text <$> transcript st) ++ [PyStr.strip event_text]).
Proof.
  split_and!.
  - intros Hlen.
    assert (Heq : on_user_speech cfg event_text now st
                  = check_accumulator_for_question cfg st).
    { unfold on_user_speech. cbv zeta.
      rewrite check_accumulator_flushed. cbn [bind].
      unfold record_user_speech.
      replace (1 <? String.length (PyStr.strip event_text)) with false
        by (symmetry; apply Nat.ltb_ge; lia).
      rewrite andb_false_r. cbn [bind].
      by rewrite no_goodbye_in_short_text. }
    split; [done |]. rewrite Heq, check_accumulator_flushed. cbn [state_of].
    by destruct (flushed_frame cfg st) as (_ & _ & _ & _ & -> & _).
  - intros Hempty.
    assert (Heq : on_agent_speech cfg event_text now now_check st
                  = (do s <- flush_on_gap cfg now st;
                     Returned (set_last_agent_speech_time (Some now) s))).
    { unfold on_agent_speech. cbv zeta. rewrite Hempty.
      rewrite flush_on_gap_returns. cbn [bind].
      unfold record_agent_speech. cbn [PyStr.truthy bind].
      rewrite detect_closing_returns.
      by rewrite no_closing_keyword_in_empty_text. }
    split; [done |]. rewrite Heq.
    rewrite (returned_state_of (flush_on_gap cfg now st))
      by (by rewrite flush_on_gap_returns).
    cbn [bind state_of]. unfold_setters; fields. split; [| done].
    destruct (flush_on_gap_cases cfg now st) as [-> | ->]; [done |].
    by destruct (flushed_frame cfg st) as (_ & _ & _ & _ & -> & _).
  - intros Hs Hne%truthy_true.
    destruct (on_agent_speech_effect cfg event_text now now_check st Hs)
      as (_ & _ & _ & _ & _ & -> & _).
    by rewrite Hne.
Qed.


(** ** The latch along a conversation *)

Lemma latch_step_mark cfg reason st s :
  is_complete s = is_complete st →
  callback_calls s = callback_calls st →
  completion_log s = completion_log st →
  latch_step cfg st (mark_complete cfg reason s).
Proof.
  intros Hc Hn Hl. unfold latch_step.
  rewrite mark_complete_set, mark_complete_calls, mark_complete_log, Hc, Hn, Hl.
  destruct (is_complete st); cbn [negb andb].
  - left. by rewrite Nat.add_0_r, app_nil_r.
  - right. eauto.
Qed.

Lemma latch_step_same cfg st s :
  is_complete s = is_complete st →
  callback_calls s = callback_calls st →
  completion_log s = completion_log st →
  latch_step cfg st s.
Proof. intros. by left. Qed.

Lemma latch_step_check cfg now st s :
  is_complete s = is_complete st →
  callback_calls s = callback_calls st →
  completion_log s = completion_log st →
  latch_step cfg st (check_completion cfg now s).
Proof.
  intros. unfold check_completion.
  destruct (_ && _); [by apply latch_step_mark | by apply latch_step_same].
Qed.

Lemma flush_on_gap_latch cfg now st :
  let s := state_of (flush_on_gap cfg now st) in
  is_complete s = is_complete st
  ∧ callback_calls s = callback_calls st
  ∧ completion_log s = completion_log st.
Proof.
  cbv zeta. destruct (flush_on_gap_cases cfg now st) as [-> | ->]; [done |].
  by destruct (flushed_frame cfg st) as (_ & _ & _ & -> & _ & _ & -> & ->).
Qed.

Lemma step_latch cfg ev st : latch_step cfg st (state_of (step cfg ev st)).
Proof.
  destruct ev as [t now chk | t now | timeout outcome]; cbn [step].
  - unfold on_agent_speech. cbv zeta.
    destruct (flush_on_gap_latch cfg now st) as (Hc & Hn & Hl).
    rewrite (returned_state_of (flush_on_gap cfg now st)) in *
      by (by rewrite flush_on_gap_returns).
    cbn [bind state_of] in *.
    set (st1 := state_of (flush_on_gap cfg now st)) in *.
    pose proof (record_agent_speech_frame cfg (PyStr.strip t) now st1)
      as (_ & _ & _ & _ & _ & Hc2 & Hn2 & Hl2).
    destruct (record_agent_speech cfg (PyStr.strip t) now st1) as [st2|e st2];
      cbn [bind state_of] in *.
    + rewrite detect_closing_returns. cbn [state_of].
      destruct (existsb _ _).
      * set (st3 := set_agent_closing_phrases _ _).
        destruct (wrap_up_reached_frame cfg st3)
          as (_ & _ & _ & _ & Hc3 & _ & _ & _ & Hn3 & Hl3).
        apply latch_step_check; subst st3; unfold_setters; fields; congruence.
      * apply latch_step_same; unfold_setters; fields; congruence.
    + apply latch_step_same; congruence.
  - unfold on_user_speech. cbv zeta.
    rewrite check_accumulator_flushed. cbn [bind].
    destruct (flushed_frame cfg st) as (_ & _ & _ & Hc & _ & _ & Hn & Hl).
    pose proof (record_user_speech_frame cfg (PyStr.strip t) now (flushed cfg st))
      as (_ & _ & _ & _ & _ & Hc2 & _ & _ & Hn2 & Hl2).
    destruct (record_user_speech cfg (PyStr.strip t) now (flushed cfg st))
      as [st2|e st2]; cbn [bind state_of] in *.
    + destruct (_ || _); cbn [state_of];
        [apply latch_step_mark | apply latch_step_same]; congruence.
    + apply latch_step_same; congruence.
  - cbn [state_of]. unfold wait_for_completion.
    destruct outcome; [by apply latch_step_same | by apply latch_step_mark].
Qed.

(** Along any events the latch is set at most once, and the callback runs
    exactly when it is. *)
Lemma run_latch cfg evs st :
  is_complete (run cfg evs st) = is_complete st || is_complete (run cfg evs st)
  ∧ callback_calls (run cfg evs st)
    = callback_calls st
      + (if negb (is_complete st) && is_complete (run cfg evs st)
            && completion_callback cfg
         then 1 else 0)
  ∧ length (completion_log (run cfg evs st))
    = length (completion_log st)
      + (if negb (is_complete st) && is_complete (run cfg evs st)
         then 1 else 0).
Proof.
  revert st. induction evs as [|ev evs IH]; intros st; cbn [run].
  - destruct (is_complete st); cbn; split_and!; (done || lia).
  - destruct (IH (state_of (step cfg ev st))) as (H1 & H2 & H3).
    destruct (step_latch cfg ev st)
      as [(Hc & Hn & Hl) | (Hc & Hc' & Hn & r & Hl)].
    + rewrite Hc, Hn, Hl in *. done.
    + rewrite Hc' in H1, H2, H3. cbn [negb andb orb] in *.
      rewrite H1, H2, H3, Hc, Hn, Hl, length_app. cbn [negb andb orb length].
      destruct (completion_callback cfg); split_and!; (done || lia).
Qed.

(** C1. Whatever triggers follow one another, the first call of
    [_mark_complete] decides the outcome: the latch is set, the callback
    (when one was given) has run once more than before if the latch was not
    set and not at all otherwise, and every later call returns the processor
    as it found it. Along any sequence of agent fragments, user fragments
    and ended waits, a set latch stays set and the callback runs once when
    the latch goes from unset to set, and never otherwise. *)
Theorem completion_latch_fires_once cfg reason reasons st :
  mark_all cfg (reason :: reasons) st = mark_complete cfg reason st
  ∧ is_complete (mark_all cfg (reason :: reasons) st) = true
  ∧ callback_calls (mark_all cfg (reason :: reasons) st)
    = callback_calls st
      + (if negb (is_complete st) && completion_callback cfg then 1 else 0)
  ∧ completion_log (mark_all cfg (reason :: reasons) st)
    = completion_log st ++ (if is_complete st then [] else [reason])
  ∧ (∀ later, mark_complete cfg later (mark_all cfg (reason :: reasons) st)
              = mark_all cfg (reason :: reasons) st)
  ∧ ∀ evs,
      (is_complete st = true → is_complete (run cfg evs st) = true)
      ∧ callback_calls (run cfg evs st)
        = callback_calls st
          + (if negb (is_complete st) && is_complete (run cfg evs st)
                && completion_callback cfg
             then 1 else 0).
Proof.
  rewrite mark_all_cons. split_and!.
  - done.
  - apply mark_complete_set.
  - apply mark_complete_calls.
  - apply mark_complete_log.
  - intros later. apply mark_complete_idem.
  - intros evs. destruct (run_latch cfg evs st) as (H1 & H2 & _).
    split; [| done]. intros Hset. by rewrite H1, Hset.
Qed.

(** After [setup] no handler raises. *)
Lemma step_start_time cfg ev st :
  is_Some (interview_start_time st) →
  is_Some (interview_start_time (state_of (step cfg ev st))).
Proof.
  intros Hs. destruct ev as [t now chk | t now | timeout outcome]; cbn [step].
  - by destruct (on_agent_speech_effect cfg t now chk st Hs)
      as (_ & _ & -> & _).
  - unfold on_user_speech. cbv zeta.
    rewrite check_accumulator_flushed. cbn [bind].
    destruct (flushed_frame cfg st) as (_ & _ & Hst & _).
    pose proof (record_user_speech_frame cfg (PyStr.strip t) now (flushed cfg st))
      as (_ & _ & _ & _ & Hst2 & _).
    destruct (record_user_speech cfg (PyStr.strip t) now (flushed cfg st))
      as [st2|e st2]; cbn [bind state_of] in *; [| congruence].
    destruct (_ || _); cbn [state_of]; [| congruence].
    destruct (mark_complete_frame cfg ReasonUserGoodbye st2)
      as (_ & _ & _ & _ & -> & _). congruence.
  - cbn [state_of]. unfold wait_for_completion. destruct outcome; [done |].
    by destruct (mark_complete_frame cfg (ReasonTimeout timeout) st)
      as (_ & _ & _ & _ & -> & _).
Qed.

Lemma run_start_time cfg evs st :
  is_Some (interview_start_time st) →
  is_Some (interview_start_time (run cfg evs st)).
Proof.
  revert st. induction evs as [|ev evs IH]; intros st Hs; [done |].
  cbn [run]. by apply IH, step_start_time.
Qed.

Lemma handlers_return_after_setup cfg t0 evs ev :
  returns (step cfg ev (run cfg evs (setup t0 init_state))) = true.
Proof. apply step_returns, run_start_time. by eexists. Qed.

(** * The properties on the sample conversation *)

(** The example of the specification: three of the four meaningful words of
    the first question are in the accumulated text. *)
Example match_example :
  check_question_match (make_config demo_questions 8 false false "") init_state
    "So tell me about your experience with systems" = Some 0.
Proof. vm_compute. reflexivity. Qed.

Lemma started_has_start_time : is_Some (interview_start_time started).
Proof. by eexists. Qed.

(** C2 on an instance: a closing phrase after one second, no question
    counted, three expected: the evaluator changes nothing. *)
Lemma check_completion_decision_witness :
  check_completion demo_config (Qc_of_Z 1001)
    (set_agent_closing_phrases ["Goodbye!"] started)
  = set_agent_closing_phrases ["Goodbye!"] started.
Proof.
  apply (proj2 (check_completion_decision demo_config (Qc_of_Z 1001)
                  (set_agent_closing_phrases ["Goodbye!"] started))).
  - reflexivity.
  - vm_compute. lia.
  - by vm_compute.
Defined.

(** C5 as the specification words it fails: with three questions the last index is
    2, and the cursor after a closing phrase is 3. *)
Lemma closing_phrase_cursor_counterexample :
  existsb (fun keyword => PyStr.contains keyword (PyStr.lower "Goodbye!"))
    closing_keywords = true
  ∧ current_question_index started < length (questions demo_config)
  ∧ current_question_index
      (state_of (on_agent_speech demo_config "Goodbye!"
                   (Qc_of_Z 1001) (Qc_of_Z 1001) started))
    ≠ length (questions demo_config) - 1.
Proof. split_and!; [reflexivity | vm_compute; lia | by vm_compute]. Qed.

(** C5 on the same instance: the cursor becomes the number of questions. *)
Lemma closing_phrase_forces_cursor_witness :
  current_question_index
    (state_of (on_agent_speech demo_config "Goodbye!"
                 (Qc_of_Z 1001) (Qc_of_Z 1001) started))
  = 3.
Proof.
  assert (Hclosing :
    existsb (fun keyword => PyStr.contains keyword (PyStr.lower "Goodbye!"))
      closing_keywords = true) by reflexivity.
  destruct (closing_phrase_forces_cursor demo_config "Goodbye!"
              (Qc_of_Z 1001) (Qc_of_Z 1001) started
              started_has_start_time Hclosing)
    as (_ & _ & _ & _ & Hbelow & _).
  apply Hbelow. vm_compute. lia.
Defined.


(** C7 on an instance: "bye for now" completes at once. *)
Lemma user_goodbye_completes_witness :
  is_complete (state_of (on_user_speech demo_config "bye for now"
                           (Qc_of_Z 1001) started)) = true.
Proof.
  apply (user_goodbye_completes demo_config "bye for now" (Qc_of_Z 1001) started
           started_has_start_time).
  reflexivity.
Defined.


(** C9 as the specification words it fails for the agent: a lone "?" has one
    character after trimming, and it enters the transcript and the
    buffer. *)
Lemma agent_single_character_counterexample :
  String.length (PyStr.strip "?") ≤ 1
  ∧ text <$> transcript
               (state_of (on_agent_speech demo_config "?"
                            (Qc_of_Z 1001) (Qc_of_Z 1001) started))
    = ["?"]
  ∧ agent_speech_accumulator
      (state_of (on_agent_speech demo_config "?"
                   (Qc_of_Z 1001) (Qc_of_Z 1001) started))
    = "?"
  ∧ length (sent (state_of (on_agent_speech demo_config "?"
                              (Qc_of_Z 1001) (Qc_of_Z 1001) started)))
    = 1.
Proof. split_and!; [vm_compute; lia | by vm_compute ..]. Qed.

(** C9 on an instance: a lone "?" from the user leaves the transcript as it
    was. *)
Lemma degenerate_speech_skipped_witness :
  transcript (state_of (on_user_speech demo_config "?" (Qc_of_Z 1001) started))
  = transcript started.
Proof.
  apply (proj1 (degenerate_speech_skipped demo_config "?"
                  (Qc_of_Z 1001) (Qc_of_Z 1001) started)).
  vm_compute. lia.
Defined.

(** C10 on an instance: the invariant holds after a closing phrase. *)
Lemma asked_at_most_cursor_witness :
  questions_asked
    (state_of (step demo_config
                 (AgentSpeech "Goodbye!" (Qc_of_Z 1001) (Qc_of_Z 1001)) started))
  ≤ current_question_index
      (state_of (step demo_config
                   (AgentSpeech "Goodbye!" (Qc_of_Z 1001) (Qc_of_Z 1001))
                   started)).
Proof.
  apply (asked_at_most_cursor demo_config
           (AgentSpeech "Goodbye!" (Qc_of_Z 1001) (Qc_of_Z 1001)) started).
  vm_compute. lia.
Defined.

(** C3 on an instance: the first question is matched by a rewording of it,
    and nothing is matched by the empty text. *)
Lemma check_question_match_witness :
  check_question_match demo_config started
    "So tell me about your experience with systems" = Some 0
  ∧ check_question_match demo_config started "" = None.
Proof.
  split; [by vm_compute |].
  exact (proj1 (proj2 (check_question_match_first_qualifying
                         demo_config started ""))).
Defined.

(** * Further properties *)

(** ** The overlap test in integers *)

Lemma threshold_two_fifths : threshold = (Qc_of_Z 2 / Qc_of_Z 5)%Qc.
Proof. apply Qc_is_canon. by vm_compute. Qed.

Lemma Qc_of_Z_pos n : (0 < n)%Z → (0 < Qc_of_Z n)%Qc.
Proof. intros H. rewrite <- Z2Qc_inj_0. by apply (proj1 (Z2Qc_inj_lt 0 n)). Qed.

Lemma ratio_threshold_int (k n : nat) :
  0 < n →
  (threshold ≤ match_ratio k n)%Qc ↔ 2 * n ≤ 5 * k.
Proof.
  intros Hn. unfold match_ratio. rewrite threshold_two_fifths.
  assert (Hn' : (0 < Qc_of_Z (Z.of_nat n))%Qc) by (apply Qc_of_Z_pos; lia).
  assert (H5 : (0 < Qc_of_Z 5)%Qc) by (by apply Qc_of_Z_pos).
  assert (Hn0 : Qc_of_Z (Z.of_nat n) ≠ 0%Qc).
  { intros E. rewrite E in Hn'. by apply Qclt_not_eq in Hn'. }
  assert (H50 : Qc_of_Z 5 ≠ 0%Qc).
  { intros E. rewrite E in H5. by apply Qclt_not_eq in H5. }
  rewrite (Qcmult_le_mono_pos_r _ _ (Qc_of_Z (Z.of_nat n)) Hn').
  rewrite (Qcmult_le_mono_pos_l _ _ (Qc_of_Z 5) H5).
  replace (Qc_of_Z 5 * (Qc_of_Z 2 / Qc_of_Z 5 * Qc_of_Z (Z.of_nat n)))%Qc
    with (Qc_of_Z (2 * Z.of_nat n)).
  2:{ rewrite Z2Qc_inj_mul. field. done. }
  replace (Qc_of_Z 5 * (Qc_of_Z (Z.of_nat k) / Qc_of_Z (Z.of_nat n)
                        * Qc_of_Z (Z.of_nat n)))%Qc
    with (Qc_of_Z (5 * Z.of_nat k)).
  2:{ rewrite Z2Qc_inj_mul. field. done. }
  rewrite <- Z2Qc_inj_le. lia.
Qed.

Lemma meaningful_subseteq_words s :
  meaningful s ⊆ word_set (PyStr.lower s).
Proof. unfold meaningful. intros w. rewrite elem_of_difference. tauto. Qed.

Lemma qualifies_passes_threshold accumulated q :
  qualifies accumulated q ↔ passes_threshold accumulated q = true.
Proof.
  unfold qualifies, passes_threshold, overlap.
  fold (match_ratio (size (meaningful accumulated ∩ meaningful (q_text q)))
          (size (meaningful (q_text q)))).
  rewrite andb_true_iff, negb_true_iff, Nat.leb_le.
  rewrite <- not_true_iff_false, size_zero_empty.
  split.
  - intros (_ & Hne & Hle). split; [done |].
    apply ratio_threshold_int; [| done].
    apply Nat.neq_0_lt_0. by rewrite size_empty_iff; unfold_leibniz.
  - intros (Hne & Hle). split_and!; [| done |].
    + intros Hraw. apply Hne. apply set_eq. intros w.
      pose proof (meaningful_subseteq_words (q_text q) w) as Hsub.
      rewrite Hraw in Hsub. rewrite elem_of_empty in *. tauto.
    + apply ratio_threshold_int; [| done].
      apply Nat.neq_0_lt_0. by rewrite size_empty_iff; unfold_leibniz.
Qed.

(** X1. [_check_question_match] in integers: the index returned is the first
    one from the cursor on whose question has a meaningful word and has at
    least two fifths of its meaningful words in the accumulated text,
    counted as [2 * |question| <= 5 * |common|]; none is returned exactly
    when no question from the cursor on passes. *)
Theorem check_question_match_integer_test cfg st accumulated :
  match check_question_match cfg st accumulated with
  | Some i =>
      current_question_index st ≤ i
      ∧ (∃ q, questions cfg !! i = Some q
              ∧ passes_threshold accumulated q = true)
      ∧ ∀ j q, current_question_index st ≤ j < i →
               questions cfg !! j = Some q →
               passes_threshold accumulated q = false
  | None =>
      ∀ j q, current_question_index st ≤ j →
             questions cfg !! j = Some q →
             passes_threshold accumulated q = false
  end.
Proof.
  pose proof (check_question_match_cases cfg st accumulated) as H.
  destruct (check_question_match cfg st accumulated) as [i|].
  - destruct H as (Hi & (q & Hq & Hok) & Hfirst). split_and!; [lia | |].
    + exists q. split; [done |]. by apply qualifies_passes_threshold.
    + intros j q' Hj Hq'. apply not_true_is_false.
      rewrite <- qualifies_passes_threshold. by apply (Hfirst j).
  - intros j q' Hj Hq'. apply not_true_is_false.
    rewrite <- qualifies_passes_threshold. by apply (H j).
Qed.

(** ** A longer buffer *)

Lemma split_go_join word a b :
  PyStr.split_go word (PyStr.join_space a b)
  = PyStr.split_go word a ++ PyStr.split_go "" b.
Proof.
  revert word. induction a as [|c a IH]; intros word.
  - by destruct word.
  - change (PyStr.join_space (String c a) b)
      with (String c (PyStr.join_space a b)).
    cbn [PyStr.split_go]. destruct (PyStr.isspace c).
    + destruct word; by rewrite IH.
    + apply IH.
Qed.

Lemma lower_join a b :
  PyStr.lower (PyStr.join_space a b)
  = PyStr.join_space (PyStr.lower a) (PyStr.lower b).
Proof.
  induction a as [|c a IH]; [done |].
  change (PyStr.join_space (String c a) b)
    with (String c (PyStr.join_space a b)).
  cbn [PyStr.lower]. by rewrite IH.
Qed.

Lemma word_set_join a b :
  word_set (PyStr.lower (PyStr.join_space a b))
  = word_set (PyStr.lower a) ∪ word_set (PyStr.lower b).
Proof.
  unfold word_set, PyStr.split. rewrite lower_join, split_go_join.
  apply set_eq. intros w.
  rewrite elem_of_union, !elem_of_list_to_set, elem_of_app. tauto.
Qed.

Lemma passes_threshold_mono a1 a2 q :
  word_set (PyStr.lower a1) ⊆ word_set (PyStr.lower a2) →
  passes_threshold a1 q = true → passes_threshold a2 q = true.
Proof.
  intros Hsub. unfold passes_threshold.
  rewrite !andb_true_iff, !Nat.leb_le. intros [Hne Hle]. split; [done |].
  assert (Hs : size (meaningful a1 ∩ meaningful (q_text q))
               ≤ size (meaningful a2 ∩ meaningful (q_text q))).
  { apply subseteq_size. unfold meaningful. intros w.
    rewrite !elem_of_intersection, !elem_of_difference.
    intros [[H1 H2] H3]. split_and!; try tauto. by apply Hsub. }
  lia.
Qed.

Lemma check_question_match_mono cfg st a1 a2 i :
  word_set (PyStr.lower a1) ⊆ word_set (PyStr.lower a2) →
  check_question_match cfg st a1 = Some i →
  ∃ j, check_question_match cfg st a2 = Some j ∧ j ≤ i.
Proof.
  intros Hsub H1.
  pose proof (check_question_match_cases cfg st a1) as T1.
  pose proof (check_question_match_cases cfg st a2) as T2.
  rewrite H1 in T1. destruct T1 as (Hi & (q & Hq & Hok) & _).
  apply qualifies_passes_threshold in Hok.
  apply (passes_threshold_mono a1 a2 q Hsub) in Hok.
  apply qualifies_passes_threshold in Hok.
  destruct (check_question_match cfg st a2) as [j|].
  - exists j. split; [done |].
    destruct T2 as (Hj & _ & Hfirst).
    destruct (decide (j ≤ i)) as [|Hgt]; [done |].
    destruct (Hfirst i q); [lia | done | done].
  - destruct (T2 i q); [lia | done | done].
Qed.

(** X2. Speech added to the buffer never loses a match: if the buffer
    matches question [i], the buffer with a further fragment appended
    matches question [i] or an earlier one from the cursor on. *)
Theorem longer_buffer_matches_no_later cfg st accumulated more i
    (Hmatch : check_question_match cfg st accumulated = Some i) :
  ∃ j, check_question_match cfg st (PyStr.join_space accumulated more) = Some j
       ∧ current_question_index st ≤ j ≤ i.
Proof.
  destruct (check_question_match_mono cfg st accumulated
              (PyStr.join_space accumulated more) i) as (j & Hj & Hle).
  - rewrite word_set_join. intros w. rewrite elem_of_union. tauto.
  - done.
  - exists j. split; [done |].
    apply check_question_match_range in Hj as [Hc _]. lia.
Qed.

(** ** What the handlers put out *)

Lemma outputs_same cfg st st' :
  transcript st' = transcript st → sent st' = sent st → outputs cfg st st'.
Proof.
  intros Ht Hs. exists [], []. rewrite !app_nil_r.
  split_and!; try done. by destruct (notifier_configured cfg).
Qed.

Lemma outputs_trans cfg st1 st2 st3 :
  outputs cfg st1 st2 → outputs cfg st2 st3 → outputs cfg st1 st3.
Proof.
  intros (e1 & n1 & Ht1 & Hs1 & He1 & Hn1 & Hb1)
         (e2 & n2 & Ht2 & Hs2 & He2 & Hn2 & Hb2).
  exists (e1 ++ e2), (n1 ++ n2).
  rewrite Ht2, Ht1, Hs2, Hs1, <- !app_assoc.
  split_and!; try done; try (by apply Forall_app).
  destruct (notifier_configured cfg).
  - by rewrite omap_app, Hb1, Hb2.
  - by rewrite Hb1, Hb2.
Qed.

(** One notification, of progress, for a question of the list. *)
Lemma outputs_progress cfg st st' i q :
  questions cfg !! i = Some q →
  transcript st' = transcript st →
  sent st'
  = sent st ++ (if notifier_configured cfg
                then [NProgress i (q_category q) (expected_questions cfg)]
                else []) →
  outputs cfg st st'.
Proof.
  intros Hq Ht Hs.
  exists [], (if notifier_configured cfg
              then [NProgress i (q_category q) (expected_questions cfg)]
              else []).
  rewrite app_nil_r.
  split_and!; [done | done | done | |].
  - destruct (notifier_configured cfg); [| done].
    apply Forall_singleton. cbn. eauto.
  - by destruct (notifier_configured cfg).
Qed.

(** One entry, and its notification. *)
Lemma outputs_entry cfg st st' e :
  entry_ok e →
  transcript st' = transcript st ++ [e] →
  sent st'
  = sent st ++ (if notifier_configured cfg
                then [NTranscript (speaker e) (text e) (timestamp e)]
                else []) →
  outputs cfg st st'.
Proof.
  intros He Ht Hs.
  exists [e], (if notifier_configured cfg
               then [NTranscript (speaker e) (text e) (timestamp e)]
               else []).
  split_and!; [done | done | by apply Forall_singleton | |].
  - destruct (notifier_configured cfg); [| done]. by apply Forall_singleton.
  - destruct (notifier_configured cfg); [| done]. by destruct e.
Qed.

Lemma outputs_flushed cfg st : outputs cfg st (flushed cfg st).
Proof.
  destruct (flushed_frame cfg st) as (_ & _ & _ & _ & Ht & _).
  destruct (agent_speech_accumulator st) as [|c acc] eqn:E.
  - apply outputs_same; unfold flushed; by rewrite E.
  - assert (Hne : agent_speech_accumulator st ≠ "") by (by rewrite E).
    pose proof (flushed_match cfg st Hne) as H.
    destruct (check_question_match _ _ _) as [i|].
    + destruct H as (_ & _ & _ & q & Hq & Hs).
      by apply (outputs_progress cfg st _ i q).
    + destruct H as (_ & _ & Hs). by apply outputs_same.
Qed.

Lemma outputs_flush_on_gap cfg now st :
  outputs cfg st (state_of (flush_on_gap cfg now st)).
Proof.
  destruct (flush_on_gap_cases cfg now st) as [-> | ->];
    [by apply outputs_same | apply outputs_flushed].
Qed.

Lemma outputs_record_agent_speech cfg txt now st :
  outputs cfg st (state_of (record_agent_speech cfg txt now st)).
Proof.
  unfold record_agent_speech.
  destruct (PyStr.truthy txt) eqn:Htxt; [| by apply outputs_same].
  destruct (interview_start_time st) as [t0|]; [| by apply outputs_same].
  cbv zeta. cbn [state_of].
  apply (outputs_entry cfg st _ (mkEntry agent txt (round2 (now - t0)))).
  - split; [by apply truthy_true | done].
  - unfold send_transcript_event.
    destruct (_ || _); unfold_setters; fields;
      destruct (PyStr.truthy (agent_speech_accumulator st)); by fields.
  - cbn [speaker text timestamp].
    unfold send_transcript_event. rewrite notifier_configured_negb.
    destruct (notifier_configured cfg); cbn [negb]; unfold_setters; fields;
      destruct (PyStr.truthy (agent_speech_accumulator st)); fields;
      by rewrite ?app_nil_r.
Qed.

Lemma outputs_record_user_speech cfg txt now st :
  outputs cfg st (state_of (record_user_speech cfg txt now st)).
Proof.
  unfold record_user_speech.
  destruct (PyStr.truthy txt && _) eqn:Htxt; [| by apply outputs_same].
  apply andb_prop in Htxt as [Htxt Hlen].
  destruct (interview_start_time st) as [t0|]; [| by apply outputs_same].
  cbv zeta. cbn [state_of].
  apply (outputs_entry cfg st _ (mkEntry user txt (round2 (now - t0)))).
  - split; [by apply truthy_true | intros _; by apply Nat.ltb_lt].
  - unfold send_transcript_event. destruct (_ || _); by unfold_setters; fields.
  - rewrite send_transcript_event_sent. by unfold_setters; fields.
Qed.

Lemma outputs_wrap_up_reached cfg st : outputs cfg st (wrap_up_reached cfg st).
Proof.
  destruct (wrap_up_reached_frame cfg st) as (_ & _ & _ & _ & _ & Ht & _).
  pose proof (wrap_up_reached_sent cfg st) as Hs.
  destruct (Nat.ltb_spec (current_question_index st) (length (questions cfg)))
    as [Hlt|Hge]; cbn [andb] in Hs.
  - destruct (questions cfg !! (length (questions cfg) - 1)) as [q|] eqn:Hq.
    + by apply (outputs_progress cfg st _ (length (questions cfg) - 1) q).
    + apply lookup_ge_None in Hq. lia.
  - apply outputs_same; [done | by rewrite Hs, app_nil_r].
Qed.

Lemma outputs_mark_complete cfg reason st :
  outputs cfg st (mark_complete cfg reason st).
Proof.
  destruct (mark_complete_frame cfg reason st)
    as (_ & _ & _ & _ & _ & Ht & _ & _ & Hs).
  by apply outputs_same.
Qed.

Lemma outputs_check_completion cfg now st :
  outputs cfg st (check_completion cfg now st).
Proof.
  destruct (check_completion_frame cfg now st)
    as (_ & _ & _ & _ & _ & Ht & _ & _ & Hs).
  by apply outputs_same.
Qed.

Lemma outputs_detect_closing cfg txt text_lower now_check st :
  outputs cfg st (state_of (detect_closing cfg txt text_lower now_check st)).
Proof.
  rewrite detect_closing_returns. cbn [state_of].
  destruct (existsb _ _); [| by apply outputs_same].
  eapply outputs_trans; [| apply outputs_check_completion].
  eapply outputs_trans; [| apply outputs_wrap_up_reached].
  by apply outputs_same.
Qed.

Lemma outputs_step cfg ev st : outputs cfg st (state_of (step cfg ev st)).
Proof.
  destruct ev as [t now chk | t now | timeout outcome]; cbn [step].
  - unfold on_agent_speech. cbv zeta.
    pose proof (outputs_flush_on_gap cfg now st) as H1.
    rewrite (returned_state_of (flush_on_gap cfg now st))
      by (by rewrite flush_on_gap_returns).
    cbn [bind]. set (st1 := state_of (flush_on_gap cfg now st)) in *.
    pose proof (outputs_record_agent_speech cfg (PyStr.strip t) now st1) as H2.
    destruct (record_agent_speech cfg (PyStr.strip t) now st1) as [st2|e st2];
      cbn [bind state_of] in *; [| by eapply outputs_trans].
    eapply outputs_trans; [exact H1 |].
    eapply outputs_trans; [exact H2 |].
    eapply outputs_trans; [| apply outputs_detect_closing].
    by apply outputs_same.
  - unfold on_user_speech. cbv zeta.
    rewrite check_accumulator_flushed. cbn [bind].
    pose proof (outputs_flushed cfg st) as H1.
    pose proof (outputs_record_user_speech cfg (PyStr.strip t) now
                  (flushed cfg st)) as H2.
    destruct (record_user_speech cfg (PyStr.strip t) now (flushed cfg st))
      as [st2|e st2]; cbn [bind state_of] in *; [| by eapply outputs_trans].
    eapply outputs_trans; [exact H1 |].
    eapply outputs_trans; [exact H2 |].
    destruct (_ || _); cbn [state_of];
      [apply outputs_mark_complete | by apply outputs_same].
  - cbn [state_of]. unfold wait_for_completion.
    destruct outcome; [by apply outputs_same | apply outputs_mark_complete].
Qed.

Lemma outputs_run cfg evs st : outputs cfg st (run cfg evs st).
Proof.
  revert st. induction evs as [|ev evs IH]; intros st; cbn [run].
  - by apply outputs_same.
  - eapply outputs_trans; [apply outputs_step | apply IH].
Qed.

(** X3. The transcript and the list of notifications are append-only: along
    any events, what was recorded or sent before is still there, in the
    same order, at the front. *)
Theorem transcript_append_only cfg evs st :
  transcript st `prefix_of` transcript (run cfg evs st)
  ∧ sent st `prefix_of` sent (run cfg evs st)
  ∧ get_transcript st `prefix_of` get_transcript (run cfg evs st).
Proof.
  destruct (outputs_run cfg evs st) as (entries & notes & Ht & Hs & _).
  unfold get_transcript. rewrite Ht, Hs, fmap_app.
  split_and!; by eexists.
Qed.

(** X4. Every entry of the transcript of a conversation has a non-empty
    text, and every user entry a text of more than one character. *)
Theorem transcript_entries_well_formed cfg t0 evs :
  Forall entry_ok (transcript (run cfg evs (setup t0 init_state))).
Proof.
  destruct (outputs_run cfg evs (setup t0 init_state))
    as (entries & notes & Ht & _ & He & _).
  by rewrite Ht.
Qed.

(** X5. With a call and an agent user id, the transcript notifications sent
    during a conversation are, in order, the entries of its transcript:
    each entry is broadcast once, with its speaker, text and time stamp. *)
Theorem broadcast_mirrors_transcript cfg t0 evs
    (Hcfg : notifier_configured cfg = true) :
  omap entry_of (sent (run cfg evs (setup t0 init_state)))
  = transcript (run cfg evs (setup t0 init_state)).
Proof.
  destruct (outputs_run cfg evs (setup t0 init_state))
    as (entries & notes & Ht & Hs & _ & _ & Hb).
  rewrite Hcfg in Hb. by rewrite Ht, Hs, omap_app, Hb.
Qed.

(** X6. Without a call or without an agent user id, no handler sends
    anything. *)
Theorem nothing_sent_without_notifier cfg evs st
    (Hcfg : notifier_configured cfg = false) :
  sent (run cfg evs st) = sent st.
Proof.
  destruct (outputs_run cfg evs st) as (entries & notes & _ & Hs & _ & _ & Hb).
  rewrite Hcfg in Hb. by rewrite Hs, Hb, app_nil_r.
Qed.

(** X7. Every progress notification of a conversation names an index of
    the question list, that question's category, and the expected number of
    questions. *)
Theorem progress_notifications_in_range cfg t0 evs :
  Forall (notification_ok cfg) (sent (run cfg evs (setup t0 init_state))).
Proof.
  destruct (outputs_run cfg evs (setup t0 init_state))
    as (entries & notes & _ & Hs & _ & Hn & _).
  by rewrite Hs.
Qed.

(** ** The counters, step by step *)

Lemma detect_closing_cursor cfg txt text_lower now_check st :
  let st' := state_of (detect_closing cfg txt text_lower now_check st) in
  current_question_index st' = current_question_index st
  ∨ current_question_index st'
    = current_question_index st `max` length (questions cfg).
Proof.
  cbv zeta. rewrite detect_closing_returns. cbn [state_of].
  destruct (existsb _ _); [right | by left].
  set (st1 := set_agent_closing_phrases _ st).
  destruct (check_completion_frame cfg now_check (wrap_up_reached cfg st1))
    as (_ & -> & _).
  by rewrite wrap_up_reached_cursor.
Qed.

(** One handler moves the counters by at most a flush (both to one past a
    matched index, at or after the cursor and in the list) followed by at
    most the jump of the cursor to the number of questions. *)
Lemma step_counters cfg ev st :
  ∃ asked cursor,
    ((asked = questions_asked st ∧ cursor = current_question_index st)
     ∨ ∃ matched_idx,
         current_question_index st ≤ matched_idx < length (questions cfg)
         ∧ asked = matched_idx + 1 ∧ cursor = matched_idx + 1)
    ∧ questions_asked (state_of (step cfg ev st)) = asked
    ∧ (current_question_index (state_of (step cfg ev st)) = cursor
       ∨ current_question_index (state_of (step cfg ev st))
         = cursor `max` length (questions cfg)).
Proof.
  destruct ev as [t now chk | t now | timeout outcome]; cbn [step].
  - unfold on_agent_speech. cbv zeta.
    rewrite (returned_state_of (flush_on_gap cfg now st))
      by (by rewrite flush_on_gap_returns).
    cbn [bind]. set (st1 := state_of (flush_on_gap cfg now st)).
    exists (questions_asked st1), (current_question_index st1). split.
    { subst st1. destruct (flush_on_gap_cases cfg now st) as [-> | ->];
        [by left |].
      destruct (flushed_progress cfg st) as [H | (i & Hi & H1 & H2)];
        [by left | right; eauto]. }
    pose proof (record_agent_speech_frame cfg (PyStr.strip t) now st1)
      as (Hqa & Hcur & _).
    destruct (record_agent_speech cfg (PyStr.strip t) now st1) as [st2|e st2];
      cbn [bind state_of] in *; [| (split; [done | by left])].
    match goal with |- context [detect_closing cfg ?a ?b chk ?s] =>
      pose proof (detect_closing_frame cfg a b chk s) as (Hq & _);
      pose proof (detect_closing_cursor cfg a b chk s) as Hc
    end.
    cbv zeta in Hc. unfold_setters; fields. rewrite Hq, <- Hqa, <- Hcur.
    split; [done |]. destruct Hc as [-> | ->]; [by left | by right].
  - unfold on_user_speech. cbv zeta.
    rewrite check_accumulator_flushed. cbn [bind].
    exists (questions_asked (flushed cfg st)),
           (current_question_index (flushed cfg st)). split.
    { destruct (flushed_progress cfg st) as [H | (i & Hi & H1 & H2)];
        [by left | right; eauto]. }
    pose proof (record_user_speech_frame cfg (PyStr.strip t) now (flushed cfg st))
      as (Hqa & Hcur & _).
    destruct (record_user_speech cfg (PyStr.strip t) now (flushed cfg st))
      as [st2|e st2]; cbn [bind state_of] in *; [| (split; [done | by left])].
    destruct (_ || _); cbn [state_of]; [| (split; [done | by left])].
    destruct (mark_complete_frame cfg ReasonUserGoodbye st2) as (-> & -> & _).
    (split; [done | by left]).
  - exists (questions_asked st), (current_question_index st).
    split; [by left |]. cbn [state_of]. unfold wait_for_completion.
    destruct outcome; [(split; [done | by left]) |].
    destruct (mark_complete_frame cfg (ReasonTimeout timeout) st) as (-> & -> & _).
    (split; [done | by left]).
Qed.

Lemma run_cursor_bound cfg evs st :
  questions_asked st ≤ current_question_index st →
  current_question_index st ≤ length (questions cfg) →
  questions_asked (run cfg evs st) ≤ current_question_index (run cfg evs st)
  ∧ current_question_index (run cfg evs st) ≤ length (questions cfg).
Proof.
  revert st. induction evs as [|ev evs IH]; intros st H1 H2; [done |].
  cbn [run]. destruct (step_counters cfg ev st) as (a & c & Hf & Ha & Hc).
  apply IH; destruct Hf as [[-> ->] | (m & Hm & -> & ->)], Hc as [Hc | Hc]; lia.
Qed.

(** X8. In a conversation the cursor never exceeds the number of questions,
    and the count of questions asked never exceeds the cursor: both stay in
    the range from 0 to the number of questions. *)
Theorem counters_within_question_list cfg t0 evs :
  questions_asked (run cfg evs (setup t0 init_state))
  ≤ current_question_index (run cfg evs (setup t0 init_state))
  ∧ current_question_index (run cfg evs (setup t0 init_state))
    ≤ length (questions cfg).
Proof. apply run_cursor_bound; cbn; lia. Qed.

(** ** The start time *)

Lemma step_start_time_eq cfg ev st :
  interview_start_time (state_of (step cfg ev st)) = interview_start_time st.
Proof.
  destruct ev as [t now chk | t now | timeout outcome]; cbn [step].
  - unfold on_agent_speech. cbv zeta.
    assert (H1 : interview_start_time (state_of (flush_on_gap cfg now st))
                 = interview_start_time st).
    { destruct (flush_on_gap_cases cfg now st) as [-> | ->]; [done |].
      by destruct (flushed_frame cfg st) as (_ & _ & -> & _). }
    rewrite (returned_state_of (flush_on_gap cfg now st))
      by (by rewrite flush_on_gap_returns).
    cbn [bind]. set (st1 := state_of (flush_on_gap cfg now st)) in *.
    pose proof (record_agent_speech_frame cfg (PyStr.strip t) now st1)
      as (_ & _ & _ & _ & H2 & _).
    destruct (record_agent_speech cfg (PyStr.strip t) now st1) as [st2|e st2];
      cbn [bind state_of] in *; [| congruence].
    match goal with |- context [detect_closing cfg ?a ?b chk ?s] =>
      destruct (detect_closing_frame cfg a b chk s) as (_ & _ & _ & -> & _)
    end.
    unfold_setters; fields. congruence.
  - unfold on_user_speech. cbv zeta.
    rewrite check_accumulator_flushed. cbn [bind].
    destruct (flushed_frame cfg st) as (_ & _ & Hst & _).
    pose proof (record_user_speech_frame cfg (PyStr.strip t) now (flushed cfg st))
      as (_ & _ & _ & _ & Hst2 & _).
    destruct (record_user_speech cfg (PyStr.strip t) now (flushed cfg st))
      as [st2|e st2]; cbn [bind state_of] in *; [| congruence].
    destruct (_ || _); cbn [state_of]; [| congruence].
    destruct (mark_complete_frame cfg ReasonUserGoodbye st2)
      as (_ & _ & _ & _ & -> & _). congruence.
  - cbn [state_of]. unfold wait_for_completion. destruct outcome; [done |].
    by destruct (mark_complete_frame cfg (ReasonTimeout timeout) st)
      as (_ & _ & _ & _ & -> & _).
Qed.

(** X10. The start time taken by [setup] is never assigned again: after any
    events it is the reading [setup] took, so every duration and time stamp
    of the conversation is measured from the same instant. *)
Theorem start_time_is_fixed cfg t0 evs st :
  interview_start_time (run cfg evs (setup t0 st)) = Some t0.
Proof.
  assert (H : ∀ s, interview_start_time (run cfg evs s) = interview_start_time s).
  { induction evs as [|ev evs IH]; intros s; [done |].
    cbn [run]. by rewrite IH, step_start_time_eq. }
  by rewrite H.
Qed.

(** ** Flushes and turns *)



(** ** What completes a conversation *)

Lemma startswith_append needle hay :
  PyStr.startswith needle hay = true →
  ∃ rest, hay = String.append needle rest.
Proof.
  revert hay. induction needle as [|a n IH]; intros hay; [by exists hay |].
  destruct hay as [|b h]; [done |]. cbn [PyStr.startswith].
  intros [Hab Hn]%andb_prop. apply Ascii.eqb_eq in Hab as ->.
  destruct (IH h Hn) as (rest & ->). by exists rest.
Qed.

Lemma goodbye_contains_bye hay :
  PyStr.contains "goodbye" hay = true → PyStr.contains "bye" hay = true.
Proof.
  induction hay as [|c h IH]; [done |].
  cbn [PyStr.contains]. intros [H | H]%orb_prop.
  - apply startswith_append in H as (rest & H).
    change (PyStr.contains "bye" (String c h) = true). by rewrite H.
  - rewrite (IH H). apply orb_true_r.
Qed.


(** X13. After [setup], a user fragment sets the latch exactly when its
    lower-cased text contains "bye" (the test for "goodbye" adds nothing);
    any other user fragment leaves the latch, the callback count and the
    completion log as they were. *)
Theorem user_completes_exactly_on_bye cfg event_text now st
    (Hstart : is_Some (interview_start_time st)) :
  let st' := state_of (on_user_speech cfg event_text now st) in
  is_complete st'
  = is_complete st || PyStr.contains "bye" (PyStr.lower event_text)
  ∧ (PyStr.contains "bye" (PyStr.lower event_text) = false →
     callback_calls st' = callback_calls st
     ∧ completion_log st' = completion_log st).
Proof.
  cbv zeta. unfold on_user_speech. cbv zeta.
  rewrite check_accumulator_flushed. cbn [bind].
  assert (Hs1 : is_Some (interview_start_time (flushed cfg st))).
  { by destruct (flushed_frame cfg st) as (_ & _ & -> & _). }
  pose proof (record_user_speech_returns cfg (PyStr.strip event_text) now _ Hs1)
    as Hret.
  pose proof (record_user_speech_frame cfg (PyStr.strip event_text) now
                (flushed cfg st))
    as (_ & _ & _ & _ & _ & Hc & _ & _ & Hcalls & Hlog).
  destruct (flushed_frame cfg st) as (_ & _ & _ & Hc' & _ & _ & Hcalls' & Hlog').
  rewrite (returned_state_of _ Hret). cbn [bind].
  rewrite !(contains_lower_strip _ event_text) by done.
  destruct (PyStr.contains "bye" (PyStr.lower event_text)) eqn:Hbye.
  - rewrite orb_true_r. cbn [state_of].
    rewrite mark_complete_set, orb_true_r. done.
  - assert (Hgood : PyStr.contains "goodbye" (PyStr.lower event_text) = false).
    { apply not_true_is_false. intros H%goodbye_contains_bye. congruence. }
    rewrite Hgood. cbn [orb state_of]. rewrite orb_false_r.
    split; [congruence |]. intros _. split; congruence.
Qed.

(** X14. An agent fragment whose lower-cased text contains no closing
    keyword never completes the conversation and never moves the cursor to
    the end: the latch, the callback count, the completion log and the
    closing phrases are as before, and the counters are those after the gap
    check. *)
Theorem agent_without_closing_keyword cfg event_text now now_check st
    (Hnone :
       existsb (fun keyword => PyStr.contains keyword (PyStr.lower event_text))
         closing_keywords = false) :
  let st' := state_of (on_agent_speech cfg event_text now now_check st) in
  is_complete st' = is_complete st
  ∧ callback_calls st' = callback_calls st
  ∧ completion_log st' = completion_log st
  ∧ agent_closing_phrases st' = agent_closing_phrases st
  ∧ current_question_index st'
    = current_question_index (state_of (flush_on_gap cfg now st))
  ∧ questions_asked st' = questions_asked (state_of (flush_on_gap cfg now st)).
Proof.
  cbv zeta. rewrite <- closing_detection_ignores_trim in Hnone.
  unfold on_agent_speech. cbv zeta.
  destruct (flush_on_gap_latch cfg now st) as (Hc & Hn & Hl).
  assert (Hcl : agent_closing_phrases (state_of (flush_on_gap cfg now st))
                = agent_closing_phrases st).
  { destruct (flush_on_gap_cases cfg now st) as [-> | ->]; [done |].
    by destruct (flushed_frame cfg st) as (-> & _). }
  rewrite (returned_state_of (flush_on_gap cfg now st)) in *
    by (by rewrite flush_on_gap_returns).
  cbn [bind state_of] in *. set (st1 := state_of (flush_on_gap cfg now st)) in *.
  pose proof (record_agent_speech_frame cfg (PyStr.strip event_text) now st1)
    as (Hqa & Hcur & Hcl2 & _ & _ & Hc2 & Hn2 & Hl2).
  destruct (record_agent_speech cfg (PyStr.strip event_text) now st1)
    as [st2|e st2]; cbn [bind state_of] in *.
  - rewrite detect_closing_returns, Hnone. cbn [state_of].
    unfold_setters; fields. split_and!; congruence.
  - split_and!; congruence.
Qed.


(** ** Queries *)

Lemma duration_minutes_mono now now' st :
  (now ≤ now')%Qc → (duration_minutes now st ≤ duration_minutes now' st)%Qc.
Proof.
  intros Hle. unfold duration_minutes.
  destruct (interview_start_time st) as [t0|]; [| done].
  destruct (bool_decide (t0 = 0%Qc)); [done |].
  unfold Qcdiv. apply Qcmult_le_mono_nonneg_r.
  - apply Qclt_le_weak, Qcinv_pos. rewrite <- Z2Qc_inj_0.
    by apply (proj1 (Z2Qc_inj_lt 0 60)).
  - unfold Qcminus. by apply Qcplus_le_mono_r.
Qed.

(** X16. [get_duration_minutes] is the duration the evaluator uses; it is 0
    before [setup], does not decrease when the clock does not go back, and
    is not negative from the start time on. So once the minimum duration is
    reached it stays reached. *)
Theorem duration_grows_with_clock cfg now now' st (Hclock : (now ≤ now')%Qc) :
  get_duration_minutes now st = duration_minutes now st
  ∧ (get_duration_minutes now st ≤ get_duration_minutes now' st)%Qc
  ∧ (enough_time cfg now st = true → enough_time cfg now' st = true)
  ∧ (∀ t0, interview_start_time st = Some t0 → (t0 ≤ now)%Qc →
           (0 ≤ get_duration_minutes now st)%Qc)
  ∧ (interview_start_time st = None → get_duration_minutes now st = 0%Qc).
Proof.
  split_and!.
  - done.
  - by apply duration_minutes_mono.
  - unfold enough_time. rewrite !bool_decide_eq_true. intros H.
    eapply Qcle_trans; [exact H | by apply duration_minutes_mono].
  - intros t0 Hs Ht. unfold get_duration_minutes. rewrite Hs.
    destruct (bool_decide (t0 = 0%Qc)); [done |].
    unfold Qcdiv. apply Qcmult_nonneg_nonneg.
    + unfold Qcminus. rewrite <- (Qcplus_opp_r t0). by apply Qcplus_le_mono_r.
    + apply Qclt_le_weak, Qcinv_pos. rewrite <- Z2Qc_inj_0.
      by apply (proj1 (Z2Qc_inj_lt 0 60)).
  - intros Hs. unfold get_duration_minutes. by rewrite Hs.
Qed.

(** ** The transcript and the closing phrases, event by event *)

Lemma step_transcript cfg ev st :
  is_Some (interview_start_time st) →
  (fun e => (speaker e, text e)) <$> transcript (state_of (step cfg ev st))
  = ((fun e => (speaker e, text e)) <$> transcript st)
    ++ option_list (recorded ev).
Proof.
  intros Hs. destruct ev as [t now chk | t now | timeout outcome];
    cbn [step recorded]; cbv zeta.
  - unfold on_agent_speech. cbv zeta.
    assert (H1 : interview_start_time (state_of (flush_on_gap cfg now st))
                 = interview_start_time st
                 ∧ transcript (state_of (flush_on_gap cfg now st))
                   = transcript st).
    { destruct (flush_on_gap_cases cfg now st) as [-> | ->]; [done |].
      by destruct (flushed_frame cfg st) as (_ & _ & -> & _ & -> & _). }
    destruct H1 as (Hst & Htr).
    rewrite (returned_state_of (flush_on_gap cfg now st))
      by (by rewrite flush_on_gap_returns).
    cbn [bind]. set (st1 := state_of (flush_on_gap cfg now st)) in *.
    destruct Hs as [t0 Hs]. rewrite Hs in Hst.
    unfold record_agent_speech. rewrite Hst.
    destruct (PyStr.truthy (PyStr.strip t)); cbn [bind option_list].
    + match goal with |- context [detect_closing cfg ?a ?b chk ?s] =>
        destruct (detect_closing_frame cfg a b chk s) as (_ & _ & _ & _ & -> & _)
      end.
      unfold send_transcript_event.
      destruct (_ || _); unfold_setters; fields;
        destruct (PyStr.truthy (agent_speech_accumulator st1)); fields;
        by rewrite fmap_app, Htr.
    + match goal with |- context [detect_closing cfg ?a ?b chk ?s] =>
        destruct (detect_closing_frame cfg a b chk s) as (_ & _ & _ & _ & -> & _)
      end.
      unfold_setters; fields. by rewrite Htr, app_nil_r.
  - unfold on_user_speech. cbv zeta.
    rewrite check_accumulator_flushed. cbn [bind].
    destruct (flushed_frame cfg st) as (_ & _ & Hst & _ & Htr & _).
    destruct Hs as [t0 Hs]. rewrite Hs in Hst.
    unfold record_user_speech. rewrite Hst.
    destruct (PyStr.truthy (PyStr.strip t) && _); cbn [bind option_list].
    + unfold send_transcript_event.
      destruct (PyStr.contains _ _ || PyStr.contains _ _); cbn [state_of];
        rewrite ?(proj1 (proj2 (proj2 (proj2 (proj2 (proj2
                   (mark_complete_frame cfg ReasonUserGoodbye _)))))));
        destruct (_ || _); unfold_setters; fields; by rewrite fmap_app, Htr.
    + destruct (PyStr.contains _ _ || PyStr.contains _ _); cbn [state_of];
        rewrite ?(proj1 (proj2 (proj2 (proj2 (proj2 (proj2
                   (mark_complete_frame cfg ReasonUserGoodbye _)))))));
        by rewrite Htr, app_nil_r.
  - cbn [state_of option_list]. rewrite app_nil_r. unfold wait_for_completion.
    destruct outcome; [done |].
    by destruct (mark_complete_frame cfg (ReasonTimeout timeout) st)
      as (_ & _ & _ & _ & _ & -> & _).
Qed.

Lemma run_transcript cfg evs st :
  is_Some (interview_start_time st) →
  (fun e => (speaker e, text e)) <$> transcript (run cfg evs st)
  = ((fun e => (speaker e, text e)) <$> transcript st) ++ omap recorded evs.
Proof.
  revert st. induction evs as [|ev evs IH]; intros st Hs; cbn [run omap].
  - by rewrite app_nil_r.
  - rewrite IH by (by apply step_start_time).
    rewrite step_transcript by done. rewrite <- app_assoc. f_equal.
    destruct (recorded ev) eqn:E; simpl; by rewrite E.
Qed.

Lemma step_closing_phrases cfg ev st :
  is_Some (interview_start_time st) →
  agent_closing_phrases (state_of (step cfg ev st))
  = agent_closing_phrases st ++ option_list (closing_phrase_of ev).
Proof.
  intros Hs. destruct ev as [t now chk | t now | timeout outcome];
    cbn [step closing_phrase_of].
  - unfold on_agent_speech. cbv zeta.
    assert (H1 : interview_start_time (state_of (flush_on_gap cfg now st))
                 = interview_start_time st
                 ∧ agent_closing_phrases (state_of (flush_on_gap cfg now st))
                   = agent_closing_phrases st).
    { destruct (flush_on_gap_cases cfg now st) as [-> | ->]; [done |].
      by destruct (flushed_frame cfg st) as (-> & _ & -> & _). }
    destruct H1 as (Hst & Hcl).
    rewrite (returned_state_of (flush_on_gap cfg now st))
      by (by rewrite flush_on_gap_returns).
    cbn [bind]. set (st1 := state_of (flush_on_gap cfg now st)) in *.
    assert (Hs1 : is_Some (interview_start_time st1)) by (by rewrite Hst).
    pose proof (record_agent_speech_returns cfg (PyStr.strip t) now st1 Hs1)
      as Hret.
    pose proof (record_agent_speech_frame cfg (PyStr.strip t) now st1)
      as (_ & _ & Hcl2 & _).
    rewrite (returned_state_of _ Hret). cbn [bind].
    rewrite detect_closing_returns. cbn [state_of].
    destruct (existsb _ _); cbn [option_list].
    + set (st3 := set_agent_closing_phrases _ _).
      destruct (check_completion_frame cfg chk (wrap_up_reached cfg st3))
        as (_ & _ & -> & _).
      destruct (wrap_up_reached_frame cfg st3) as (_ & -> & _).
      subst st3. unfold_setters; fields. by rewrite Hcl2, Hcl.
    + unfold_setters; fields. rewrite app_nil_r. congruence.
  - cbn [option_list]. rewrite app_nil_r.
    unfold on_user_speech. cbv zeta.
    rewrite check_accumulator_flushed. cbn [bind].
    destruct (flushed_frame cfg st) as (Hcl & _).
    pose proof (record_user_speech_frame cfg (PyStr.strip t) now (flushed cfg st))
      as (_ & _ & Hcl2 & _).
    destruct (record_user_speech cfg (PyStr.strip t) now (flushed cfg st))
      as [st2|e st2]; cbn [bind state_of] in *; [| congruence].
    destruct (_ || _); cbn [state_of]; [| congruence].
    destruct (mark_complete_frame cfg ReasonUserGoodbye st2)
      as (_ & _ & -> & _). congruence.
  - cbn [state_of option_list]. rewrite app_nil_r. unfold wait_for_completion.
    destruct outcome; [done |].
    by destruct (mark_complete_frame cfg (ReasonTimeout timeout) st)
      as (_ & _ & -> & _).
Qed.

Lemma run_closing_phrases cfg evs st :
  is_Some (interview_start_time st) →
  agent_closing_phrases (run cfg evs st)
  = agent_closing_phrases st ++ omap closing_phrase_of evs.
Proof.
  revert st. induction evs as [|ev evs IH]; intros st Hs; cbn [run omap].
  - by rewrite app_nil_r.
  - rewrite IH by (by apply step_start_time).
    rewrite step_closing_phrases by done. rewrite <- app_assoc. f_equal.
    destruct (closing_phrase_of ev) eqn:E; simpl; by rewrite E.
Qed.

(** * Handlers in flight *)

(** ** A handler run alone *)

Lemma resumed_ends cfg n r : resumed cfg n (Ends r) = Ends r.
Proof. by destruct n. Qed.

Lemma resumed_suspends cfg n p st :
  resumed cfg (S n) (Suspends p st) = resumed cfg n (resume cfg p st).
Proof. done. Qed.

Lemma flush_begin_alone cfg st :
  check_accumulator_for_question cfg st
  = match flush_begin cfg st with
    | FlushDone st' => Returned st'
    | FlushRaised e st' => Raised e st'
    | FlushSuspended matched_idx st' => Returned (flush_finish matched_idx st')
    end.
Proof.
  unfold check_accumulator_for_question, flush_begin, flush_finish.
  destruct (negb _); [done |].
  destruct (check_question_match _ _ _) as [i|]; [| done].
  destruct (_ <=? _); [| done].
  destruct (questions cfg !! i); [| done].
  by destruct (notifier_configured cfg).
Qed.

Lemma agent_detect_alone cfg n txt now now_check st :
  resumed cfg (S n) (agent_detect cfg txt now now_check st)
  = Ends (detect_closing cfg txt (PyStr.lower txt) now_check
            (set_last_agent_speech_time (Some now) st)).
Proof.
  unfold agent_detect, detect_closing. cbv zeta.
  destruct (existsb _ _); [| done].
  destruct (_ <? _); [| done].
  destruct (questions cfg !! _); [| done].
  destruct (notifier_configured cfg); [| done].
  rewrite resumed_suspends. cbn [resume]. apply resumed_ends.
Qed.

Lemma agent_record_alone cfg n txt now now_check st :
  resumed cfg (S (S n)) (agent_record cfg txt now now_check st)
  = Ends (do s <- record_agent_speech cfg txt now st;
          detect_closing cfg txt (PyStr.lower txt) now_check
            (set_last_agent_speech_time (Some now) s)).
Proof.
  unfold agent_record, record_agent_speech. cbv zeta.
  destruct (PyStr.truthy txt); cbn [bind]; [| apply agent_detect_alone].
  destruct (interview_start_time st); [| done].
  destruct (notifier_configured cfg); cbn [bind].
  - rewrite resumed_suspends. cbn [resume]. unfold agent_accumulate. cbv zeta.
    apply agent_detect_alone.
  - apply agent_detect_alone.
Qed.

Lemma user_record_alone cfg n txt now st :
  resumed cfg (S n) (user_record cfg txt now st)
  = Ends (do s <- record_user_speech cfg txt now st;
          if PyStr.contains "goodbye" (PyStr.lower txt)
             || PyStr.contains "bye" (PyStr.lower txt)
          then Returned (mark_complete cfg ReasonUserGoodbye s)
          else Returned s).
Proof.
  unfold user_record, record_user_speech, user_goodbye. cbv zeta.
  destruct (PyStr.truthy txt && _); cbn [bind]; [| by destruct (_ || _)].
  destruct (interview_start_time st); [| done].
  destruct (notifier_configured cfg); cbn [bind].
  - rewrite resumed_suspends. cbn [resume]. unfold user_goodbye.
    destruct (_ || _); apply resumed_ends.
  - by destruct (_ || _).
Qed.

(** The handler of [step] is the coroutine resumed as soon as it is
    suspended: after at most three resumptions it has ended, with the
    result of [step]. *)
Lemma start_alone cfg ev st : resumed cfg 3 (start cfg ev st) = Ends (step cfg ev st).
Proof.
  destruct ev as [t now chk | t now | timeout outcome]; cbn [start step];
    [| | done].
  - unfold agent_start, on_agent_speech, flush_on_gap. cbv zeta.
    destruct (accumulator_last_update st); [| apply agent_record_alone].
    destruct (bool_decide _); [| apply agent_record_alone].
    rewrite flush_begin_alone.
    destruct (flush_begin cfg st) as [s|e s|m s]; cbn [bind];
      [apply agent_record_alone | done |].
    rewrite resumed_suspends. cbn [resume]. apply agent_record_alone.
  - unfold user_start, on_user_speech. cbv zeta.
    rewrite flush_begin_alone.
    destruct (flush_begin cfg st) as [s|e s|m s]; cbn [bind];
      [apply user_record_alone | done |].
    rewrite resumed_suspends. cbn [resume]. apply (user_record_alone cfg 1).
Qed.

(** With every handler finished before the next event is delivered, the
    processor goes through the states of [run]. *)
Lemma exec_one_at_a_time cfg evs st :
  exec cfg (one_at_a_time evs) (mkWorld st []) = mkWorld (run cfg evs st) [].
Proof.
  revert st. induction evs as [|ev evs IH]; intros st; [done |].
  cbn [one_at_a_time flat_map app exec run]. fold (one_at_a_time evs).
  rewrite <- IH. f_equal.
  pose proof (start_alone cfg ev st) as H.
  cbn [act processor in_flight app].
  destruct (start cfg ev st) as [r|p1 s1]; cbn [resumed] in H.
  { cbn. congruence. }
  cbn [act processor in_flight lookup list_lookup].
  change ([p1] !! 0) with (Some p1).
  destruct (resume cfg p1 s1) as [r|p2 s2]; cbn [resumed] in H.
  { cbn. congruence. }
  cbn. destruct (resume cfg p2 s2) as [r|p3 s3]; cbn [resumed] in H.
  { cbn. congruence. }
  cbn. destruct (resume cfg p3 s3) as [r|p4 s4]; cbn [resumed] in H.
  { cbn. congruence. }
  done.
Qed.

(** ** The counters after the wrap-up, handlers in flight *)

Lemma flush_begin_past_end cfg st :
  length (questions cfg) ≤ current_question_index st →
  ∃ st', flush_begin cfg st = FlushDone st'
         ∧ current_question_index st' = current_question_index st
         ∧ questions_asked st' = questions_asked st.
Proof.
  intros Hend. unfold flush_begin.
  destruct (negb _); [by eexists |].
  rewrite check_question_match_past_end by done.
  eexists. split; [done |]. by unfold_setters.
Qed.

Lemma agent_detect_past_end cfg txt now now_check st :
  length (questions cfg) ≤ current_question_index st →
  ∃ r, agent_detect cfg txt now now_check st = Ends r
       ∧ current_question_index (state_of r) = current_question_index st
       ∧ questions_asked (state_of r) = questions_asked st.
Proof.
  intros Hend. unfold agent_detect. cbv zeta.
  destruct (existsb _ _); [| eexists; split; [done | by unfold_setters]].
  replace (_ <? _) with false
    by (symmetry; apply Nat.ltb_ge; by unfold_setters; fields).
  eexists. split; [done |]. cbn [state_of].
  match goal with |- context [check_completion cfg now_check ?s] =>
    destruct (check_completion_frame cfg now_check s) as (-> & -> & _)
  end.
  by unfold_setters.
Qed.

Lemma agent_accumulate_past_end cfg txt now now_check st :
  length (questions cfg) ≤ current_question_index st →
  ∃ r, agent_accumulate cfg txt now now_check st = Ends r
       ∧ current_question_index (state_of r) = current_question_index st
       ∧ questions_asked (state_of r) = questions_asked st.
Proof.
  intros Hend. unfold agent_accumulate. cbv zeta.
  match goal with |- context [agent_detect cfg txt now now_check ?s] =>
    destruct (agent_detect_past_end cfg txt now now_check s) as (r & -> & Hc & Hq)
  end.
  - destruct (PyStr.truthy _); by unfold_setters; fields.
  - exists r. split; [done |]. rewrite Hc, Hq.
    destruct (PyStr.truthy _); by unfold_setters; fields.
Qed.

Lemma agent_record_past_end cfg txt now now_check st :
  length (questions cfg) ≤ current_question_index st →
  let o := agent_record cfg txt now now_check st in
  current_question_index (outcome_state o) = current_question_index st
  ∧ questions_asked (outcome_state o) = questions_asked st
  ∧ ∀ p s, o = Suspends p s → past_counters p.
Proof.
  intros Hend. cbv zeta. unfold agent_record. cbv zeta.
  destruct (PyStr.truthy txt).
  - destruct (interview_start_time st); [| done].
    set (s1 := send_transcript_event _ _ _ _ _).
    assert (Hs1 : current_question_index s1 = current_question_index st
                  ∧ questions_asked s1 = questions_asked st).
    { subst s1. unfold send_transcript_event.
      destruct (_ || _); by unfold_setters; fields. }
    destruct Hs1 as (Hc & Hq).
    destruct (notifier_configured cfg).
    + cbn [outcome_state]. split_and!; [done | done |].
      by intros p s [= <- _].
    + destruct (agent_accumulate_past_end cfg txt now now_check s1)
        as (r & -> & Hc' & Hq'); [lia |].
      cbn [outcome_state]. split_and!; [congruence | congruence | done].
  - destruct (agent_detect_past_end cfg txt now now_check st Hend)
      as (r & -> & Hc' & Hq').
    cbn [outcome_state]. split_and!; done.
Qed.

Lemma user_record_past_end cfg txt now st :
  let o := user_record cfg txt now st in
  current_question_index (outcome_state o) = current_question_index st
  ∧ questions_asked (outcome_state o) = questions_asked st
  ∧ ∀ p s, o = Suspends p s → past_counters p.
Proof.
  cbv zeta. unfold user_record, user_goodbye. cbv zeta.
  assert (Hg : ∀ s tl,
    let o := (if PyStr.contains "goodbye" tl || PyStr.contains "bye" tl
              then Ends (Returned (mark_complete cfg ReasonUserGoodbye s))
              else Ends (Returned s)) in
    current_question_index (outcome_state o) = current_question_index s
    ∧ questions_asked (outcome_state o) = questions_asked s
    ∧ ∀ p s', o = Suspends p s' → past_counters p).
  { intros s tl. cbv zeta. destruct (_ || _); cbn [outcome_state state_of].
    - destruct (mark_complete_frame cfg ReasonUserGoodbye s) as (-> & -> & _).
      done.
    - done. }
  destruct (PyStr.truthy txt && _); [| apply Hg].
  destruct (interview_start_time st); [| done].
  set (s1 := send_transcript_event _ _ _ _ _).
  assert (Hs1 : current_question_index s1 = current_question_index st
                ∧ questions_asked s1 = questions_asked st).
  { subst s1. unfold send_transcript_event.
    destruct (_ || _); by unfold_setters; fields. }
  destruct Hs1 as (Hc & Hq).
  destruct (notifier_configured cfg).
  - cbn [outcome_state]. split_and!; [done | done |]. by intros p s [= <- _].
  - destruct (Hg s1 (PyStr.lower txt)) as (Hc' & Hq' & Hp).
    split_and!; [congruence | congruence | done].
Qed.

Lemma start_past_end cfg ev st :
  length (questions cfg) ≤ current_question_index st →
  let o := start cfg ev st in
  current_question_index (outcome_state o) = current_question_index st
  ∧ questions_asked (outcome_state o) = questions_asked st
  ∧ ∀ p s, o = Suspends p s → past_counters p.
Proof.
  intros Hend. cbv zeta.
  destruct ev as [t now chk | t now | timeout outcome]; cbn [start].
  - unfold agent_start. cbv zeta.
    destruct (accumulator_last_update st);
      [| by apply agent_record_past_end].
    destruct (bool_decide _); [| by apply agent_record_past_end].
    destruct (flush_begin_past_end cfg st Hend) as (s1 & -> & Hc & Hq).
    destruct (agent_record_past_end cfg (PyStr.strip t) now chk s1)
      as (Hc' & Hq' & Hp); [lia |].
    split_and!; [congruence | congruence | done].
  - unfold user_start.
    destruct (flush_begin_past_end cfg st Hend) as (s1 & -> & Hc & Hq).
    destruct (user_record_past_end cfg (PyStr.strip t) now s1)
      as (Hc' & Hq' & Hp).
    split_and!; [congruence | congruence | done].
  - cbn [outcome_state state_of]. unfold wait_for_completion.
    destruct outcome; [done |].
    destruct (mark_complete_frame cfg (ReasonTimeout timeout) st)
      as (-> & -> & _).
    done.
Qed.

Lemma resume_past_end cfg p st :
  past_counters p →
  length (questions cfg) ≤ current_question_index st →
  let o := resume cfg p st in
  current_question_index (outcome_state o) = current_question_index st
  ∧ questions_asked (outcome_state o) = questions_asked st
  ∧ ∀ p' s, o = Suspends p' s → past_counters p'.
Proof.
  intros Hp Hend. cbv zeta. destruct p as [| txt now chk | | | tl]; try done;
    cbn [resume].
  - destruct (agent_accumulate_past_end cfg txt now chk st Hend)
      as (r & -> & Hc & Hq).
    done.
  - unfold user_goodbye. destruct (_ || _); cbn [outcome_state state_of].
    + destruct (mark_complete_frame cfg ReasonUserGoodbye st) as (-> & -> & _).
      done.
    + done.
Qed.

(** ** What is recorded, handlers in flight *)

Lemma flush_finish_books m st :
  interview_start_time (flush_finish m st) = interview_start_time st
  ∧ said (flush_finish m st) = said st
  ∧ agent_closing_phrases (flush_finish m st) = agent_closing_phrases st.
Proof. unfold flush_finish, said. by unfold_setters. Qed.

Lemma flush_begin_books cfg st :
  let s := match flush_begin cfg st with
           | FlushDone s | FlushRaised _ s | FlushSuspended _ s => s
           end in
  interview_start_time s = interview_start_time st
  ∧ said s = said st
  ∧ agent_closing_phrases s = agent_closing_phrases st.
Proof.
  cbv zeta. unfold flush_begin, said.
  destruct (negb _); [done |].
  destruct (check_question_match _ _ _) as [m|]; [| by unfold_setters].
  destruct (_ <=? _); [| by unfold_setters].
  destruct (questions cfg !! m) as [q|]; [| done].
  unfold send_progress_event.
  destruct (_ || _); destruct (notifier_configured cfg);
    unfold flush_finish; by unfold_setters.
Qed.

Lemma flush_begin_never_raises cfg st e s :
  flush_begin cfg st ≠ FlushRaised e s.
Proof.
  unfold flush_begin. destruct (negb _); [done |].
  destruct (check_question_match _ _ _) as [m|] eqn:Hm; [| done].
  destruct (_ <=? _); [| done].
  destruct (check_question_match_range _ _ _ _ Hm) as (_ & q & ->).
  by destruct (notifier_configured cfg).
Qed.

Lemma agent_detect_books cfg txt now chk st :
  keeps_books st (agent_detect cfg txt now chk st) [] (owed_closing
    (AgentInTranscriptSend txt now chk)).
Proof.
  unfold keeps_books, agent_detect, said. cbv zeta. cbn [owed_closing].
  destruct (existsb _ _).
  - destruct (_ <? _).
    + destruct (questions cfg !! _) as [q|];
        [| cbn [outcome_state state_of owed_by]; unfold_setters; fields;
           by rewrite ?app_nil_r].
      unfold send_progress_event, agent_after_closing_send. cbv zeta.
      destruct (_ || _); destruct (notifier_configured cfg);
        cbn [outcome_state state_of owed_by];
        try match goal with |- context [check_completion cfg chk ?s] =>
          destruct (check_completion_frame cfg chk s)
            as (_ & _ & -> & _ & -> & -> & _)
        end; unfold_setters; fields; by rewrite ?app_nil_r.
    + cbn [outcome_state state_of owed_by].
      match goal with |- context [check_completion cfg chk ?s] =>
        destruct (check_completion_frame cfg chk s)
          as (_ & _ & -> & _ & -> & -> & _)
      end.
      unfold_setters; fields; by rewrite ?app_nil_r.
  - cbn [outcome_state state_of owed_by]. unfold_setters; fields.
    by rewrite ?app_nil_r.
Qed.

Lemma agent_accumulate_books cfg txt now chk st :
  keeps_books st (agent_accumulate cfg txt now chk st) [] (owed_closing
    (AgentInTranscriptSend txt now chk)).
Proof.
  unfold agent_accumulate. cbv zeta.
  match goal with |- keeps_books _ (agent_detect cfg txt now chk ?s) _ _ =>
    pose proof (agent_detect_books cfg txt now chk s) as (H1 & H2 & H3);
    assert (Hs : interview_start_time s = interview_start_time st
                 ∧ said s = said st
                 ∧ agent_closing_phrases s = agent_closing_phrases st)
      by (unfold said; destruct (PyStr.truthy _); by unfold_setters)
  end.
  destruct Hs as (Hs1 & Hs2 & Hs3).
  unfold keeps_books. rewrite H1, H2, H3, Hs1, Hs2, Hs3. done.
Qed.

Lemma agent_record_books cfg txt now chk st :
  is_Some (interview_start_time st) →
  keeps_books st (agent_record cfg txt now chk st)
    (owed_entries (AgentInFlush 0 txt now chk))
    (owed_closing (AgentInFlush 0 txt now chk)).
Proof.
  intros [t0 Ht0]. unfold agent_record. cbv zeta. rewrite Ht0.
  cbn [owed_entries owed_closing].
  destruct (PyStr.truthy txt).
  - set (s1 := send_transcript_event _ _ _ _ _).
    assert (Hs : interview_start_time s1 = interview_start_time st
                 ∧ said s1 = said st ++ [(agent, txt)]
                 ∧ agent_closing_phrases s1 = agent_closing_phrases st).
    { subst s1. unfold send_transcript_event, said.
      destruct (_ || _); unfold_setters; fields;
        by rewrite fmap_app. }
    destruct Hs as (Hs1 & Hs2 & Hs3).
    destruct (notifier_configured cfg).
    + unfold keeps_books. cbn [outcome_state owed_by owed_entries owed_closing].
      by rewrite Hs1, Hs2, Hs3, app_nil_r.
    + pose proof (agent_accumulate_books cfg txt now chk s1) as (H1 & H2 & H3).
      unfold keeps_books. rewrite H1, H2, H3, Hs1, Hs2, Hs3.
      by rewrite app_nil_r.
  - pose proof (agent_detect_books cfg txt now chk st) as (H1 & H2 & H3).
    unfold keeps_books. by rewrite H1, H2, H3.
Qed.

Lemma user_goodbye_books cfg tl st :
  keeps_books st (user_goodbye cfg tl st) [] [].
Proof.
  unfold keeps_books, user_goodbye, said.
  destruct (_ || _); cbn [outcome_state state_of owed_by].
  - destruct (mark_complete_frame cfg ReasonUserGoodbye st)
      as (_ & _ & -> & _ & -> & -> & _).
    done.
  - done.
Qed.

Lemma user_record_books cfg txt now st :
  is_Some (interview_start_time st) →
  keeps_books st (user_record cfg txt now st)
    (owed_entries (UserInFlush 0 txt now)) [].
Proof.
  intros [t0 Ht0]. unfold user_record. cbv zeta. rewrite Ht0.
  cbn [owed_entries].
  destruct (PyStr.truthy txt && _).
  - set (s1 := send_transcript_event _ _ _ _ _).
    assert (Hs : interview_start_time s1 = interview_start_time st
                 ∧ said s1 = said st ++ [(user, txt)]
                 ∧ agent_closing_phrases s1 = agent_closing_phrases st).
    { subst s1. unfold send_transcript_event, said.
      destruct (_ || _); unfold_setters; fields;
        by rewrite fmap_app. }
    destruct Hs as (Hs1 & Hs2 & Hs3).
    destruct (notifier_configured cfg).
    + unfold keeps_books. cbn [outcome_state owed_by owed_entries owed_closing].
      by rewrite Hs1, Hs2, Hs3, !app_nil_r.
    + pose proof (user_goodbye_books cfg (PyStr.lower txt) s1) as (H1 & H2 & H3).
      unfold keeps_books. rewrite H1, H2, H3, Hs1, Hs2, Hs3.
      by rewrite !app_nil_r.
  - apply user_goodbye_books.
Qed.

Lemma resume_books cfg p st :
  is_Some (interview_start_time st) →
  keeps_books st (resume cfg p st) (owed_entries p) (owed_closing p).
Proof.
  intros Hs. destruct p as [m txt now chk | txt now chk | chk | m txt now | tl];
    cbn [resume].
  - destruct (flush_finish_books m st) as (F1 & F2 & F3).
    pose proof (agent_record_books cfg txt now chk (flush_finish m st))
      as (H1 & H2 & H3); [by rewrite F1 |].
    unfold keeps_books. by rewrite H1, H2, H3, F1, F2, F3.
  - cbn [owed_entries]. apply agent_accumulate_books.
  - unfold keeps_books, agent_after_closing_send, said. cbv zeta.
    cbn [outcome_state state_of owed_by owed_entries owed_closing].
    match goal with |- context [check_completion cfg chk ?s] =>
      destruct (check_completion_frame cfg chk s)
        as (_ & _ & -> & _ & -> & -> & _)
    end.
    by unfold_setters.
  - destruct (flush_finish_books m st) as (F1 & F2 & F3).
    pose proof (user_record_books cfg txt now (flush_finish m st))
      as (H1 & H2 & H3); [by rewrite F1 |].
    unfold keeps_books. cbn [owed_closing]. by rewrite H1, H2, H3, F1, F2, F3.
  - cbn [owed_entries owed_closing]. apply user_goodbye_books.
Qed.

Lemma recorded_agent t now chk :
  option_list (recorded (AgentSpeech t now chk))
  = owed_entries (AgentInFlush 0 (PyStr.strip t) now chk).
Proof. cbn [recorded owed_entries]. cbv zeta. by destruct (PyStr.truthy _). Qed.

Lemma recorded_user t now :
  option_list (recorded (UserSpeech t now))
  = owed_entries (UserInFlush 0 (PyStr.strip t) now).
Proof. cbn [recorded owed_entries]. cbv zeta. by destruct (_ && _). Qed.

Lemma closing_phrase_of_agent t now chk :
  option_list (closing_phrase_of (AgentSpeech t now chk))
  = owed_closing (AgentInFlush 0 (PyStr.strip t) now chk).
Proof. cbn [closing_phrase_of owed_closing]. by destruct (existsb _ _). Qed.

Lemma start_books cfg ev st :
  is_Some (interview_start_time st) →
  keeps_books st (start cfg ev st) (option_list (recorded ev))
    (option_list (closing_phrase_of ev)).
Proof.
  intros Hs. destruct ev as [t now chk | t now | timeout outcome]; cbn [start].
  - rewrite recorded_agent, closing_phrase_of_agent.
    unfold agent_start. cbv zeta.
    destruct (accumulator_last_update st);
      [| by apply agent_record_books].
    destruct (bool_decide _); [| by apply agent_record_books].
    pose proof (flush_begin_books cfg st) as HF. cbv zeta in HF.
    pose proof (flush_begin_never_raises cfg st) as HR.
    destruct (flush_begin cfg st) as [s|e s|m s]; destruct HF as (F1 & F2 & F3).
    + pose proof (agent_record_books cfg (PyStr.strip t) now chk s)
        as (H1 & H2 & H3); [by rewrite F1 |].
      unfold keeps_books. by rewrite H1, H2, H3, F1, F2, F3.
    + by destruct (HR e s).
    + unfold keeps_books. cbn [outcome_state owed_by].
      cbn [owed_entries owed_closing]. by rewrite F1, F2, F3.
  - rewrite recorded_user. cbn [closing_phrase_of option_list].
    unfold user_start.
    pose proof (flush_begin_books cfg st) as HF. cbv zeta in HF.
    pose proof (flush_begin_never_raises cfg st) as HR.
    destruct (flush_begin cfg st) as [s|e s|m s]; destruct HF as (F1 & F2 & F3).
    + pose proof (user_record_books cfg (PyStr.strip t) now s)
        as (H1 & H2 & H3); [by rewrite F1 |].
      unfold keeps_books. by rewrite H1, H2, H3, F1, F2, F3.
    + by destruct (HR e s).
    + unfold keeps_books. cbn [outcome_state owed_by].
      cbn [owed_entries owed_closing]. by rewrite F1, F2, F3.
  - unfold keeps_books, said. cbn [outcome_state state_of owed_by recorded
      closing_phrase_of option_list].
    unfold wait_for_completion. destruct outcome; [by rewrite !app_nil_r |].
    destruct (mark_complete_frame cfg (ReasonTimeout timeout) st)
      as (_ & _ & -> & _ & -> & -> & _).
    by rewrite !app_nil_r.
Qed.

Lemma owed_delete {A : Type} (owed : Suspended → list A) pool i p :
  pool !! i = Some p →
  concat (owed <$> pool) ≡ₚ owed p ++ concat (owed <$> delete i pool).
Proof.
  intros Hi. rewrite <- (take_drop_middle pool i p Hi) at 1.
  rewrite delete_take_drop, !fmap_app, fmap_cons, !concat_app, concat_cons.
  rewrite !(assoc (++)). f_equiv. apply Permutation_app_comm.
Qed.

Lemma owed_insert {A : Type} (owed : Suspended → list A) pool i p p' :
  pool !! i = Some p →
  concat (owed <$> <[i := p']> pool)
  ≡ₚ owed p' ++ concat (owed <$> delete i pool).
Proof.
  intros Hi. rewrite insert_take_drop by (by eapply lookup_lt_Some).
  rewrite delete_take_drop, !fmap_app, fmap_cons, !concat_app, concat_cons.
  rewrite !(assoc (++)). f_equiv. apply Permutation_app_comm.
Qed.

(** One action keeps a ledger whose stretches keep it. *)
Lemma act_on_books {A : Type} cfg (booked : State → list A)
    (owed : Suspended → list A) (due : Event → list A) a w :
  (∀ ev, booked (outcome_state (start cfg ev (processor w)))
         ++ owed_by owed (start cfg ev (processor w))
         = booked (processor w) ++ due ev) →
  (∀ p, booked (outcome_state (resume cfg p (processor w)))
        ++ owed_by owed (resume cfg p (processor w))
        = booked (processor w) ++ owed p) →
  on_books booked owed (act cfg a w)
  ≡ₚ on_books booked owed w
     ++ match a with Deliver ev => due ev | Resume _ => [] end.
Proof.
  assert (Hswap : ∀ x y z : list A, x ++ y ++ z ≡ₚ (x ++ z) ++ y).
  { intros x y z. rewrite <- (assoc (++)). f_equiv. apply Permutation_app_comm. }
  intros Hstart Hresume. unfold on_books. destruct a as [ev|i]; cbn [act].
  - specialize (Hstart ev).
    destruct (start cfg ev (processor w)) as [r|p s];
      cbn [processor in_flight outcome_state owed_by] in *.
    + rewrite app_nil_r in Hstart. rewrite Hstart.
      rewrite <- !(assoc (++)). f_equiv. apply Permutation_app_comm.
    + rewrite fmap_app, concat_app. cbn [fmap list_fmap concat].
      rewrite app_nil_r, Hswap, Hstart.
      rewrite <- !(assoc (++)). f_equiv. apply Permutation_app_comm.
  - destruct (in_flight w !! i) as [p|] eqn:Hi; [| by rewrite app_nil_r].
    specialize (Hresume p). rewrite app_nil_r.
    rewrite (owed_delete owed (in_flight w) i p Hi).
    destruct (resume cfg p (processor w)) as [r|p' s];
      cbn [processor in_flight outcome_state owed_by] in *.
    + rewrite app_nil_r in Hresume. by rewrite Hresume, <- (assoc (++)).
    + rewrite (owed_insert owed (in_flight w) i p p' Hi).
      by rewrite !(assoc (++)), Hresume.
Qed.

Lemma act_start_time cfg a w :
  is_Some (interview_start_time (processor w)) →
  interview_start_time (processor (act cfg a w))
  = interview_start_time (processor w).
Proof.
  intros Hs. destruct a as [ev|i]; cbn [act].
  - destruct (start_books cfg ev (processor w) Hs) as (H & _).
    by destruct (start cfg ev (processor w)).
  - destruct (in_flight w !! i) as [p|]; [| done].
    destruct (resume_books cfg p (processor w) Hs) as (H & _).
    by destruct (resume cfg p (processor w)).
Qed.

Lemma omap_delivered {A : Type} (f : Event → option A) a actions :
  omap f (delivered (a :: actions))
  = match a with Deliver ev => option_list (f ev) | Resume _ => [] end
    ++ omap f (delivered actions).
Proof.
  unfold delivered. destruct a as [ev|i]; simpl; [| done].
  by destruct (f ev).
Qed.

Lemma exec_entries cfg actions w :
  is_Some (interview_start_time (processor w)) →
  on_books said owed_entries (exec cfg actions w)
  ≡ₚ on_books said owed_entries w ++ omap recorded (delivered actions).
Proof.
  revert w. induction actions as [|a actions IH]; intros w Hs.
  - cbn [exec]. unfold delivered. simpl. by rewrite app_nil_r.
  - cbn [exec]. rewrite IH by (by rewrite act_start_time).
    rewrite omap_delivered, (assoc (++)). f_equiv.
    apply (act_on_books cfg said owed_entries
             (fun ev => option_list (recorded ev))).
    + intros ev. by destruct (start_books cfg ev (processor w) Hs) as (_ & H & _).
    + intros p. by destruct (resume_books cfg p (processor w) Hs) as (_ & H & _).
Qed.

Lemma exec_closing cfg actions w :
  is_Some (interview_start_time (processor w)) →
  on_books agent_closing_phrases owed_closing (exec cfg actions w)
  ≡ₚ on_books agent_closing_phrases owed_closing w
     ++ omap closing_phrase_of (delivered actions).
Proof.
  revert w. induction actions as [|a actions IH]; intros w Hs.
  - cbn [exec]. unfold delivered. simpl. by rewrite app_nil_r.
  - cbn [exec]. rewrite IH by (by rewrite act_start_time).
    rewrite omap_delivered, (assoc (++)). f_equiv.
    apply (act_on_books cfg agent_closing_phrases owed_closing
             (fun ev => option_list (closing_phrase_of ev))).
    + intros ev. by destruct (start_books cfg ev (processor w) Hs) as (_ & _ & H).
    + intros p. by destruct (resume_books cfg p (processor w) Hs) as (_ & _ & H).
Qed.

(** ** No notifier, no suspension *)

Lemma start_without_notifier cfg ev st :
  notifier_configured cfg = false →
  start cfg ev st = Ends (step cfg ev st).
Proof.
  intros Hn. pose proof (start_alone cfg ev st) as Halone.
  assert (Hends : ∃ r, start cfg ev st = Ends r).
  { destruct ev as [t now chk | t now | timeout outcome]; cbn [start].
    - unfold agent_start, flush_begin, agent_record, agent_accumulate,
        agent_detect, agent_after_closing_send. cbv zeta. rewrite Hn.
      repeat case_match; try discriminate; by eexists.
    - unfold user_start, flush_begin, user_record, user_goodbye. cbv zeta.
      rewrite Hn. repeat case_match; try discriminate; by eexists.
    - by eexists. }
  destruct Hends as (r & Hr). rewrite Hr in Halone |- *.
  cbn [resumed] in Halone. exact Halone.
Qed.

Lemma exec_without_notifier cfg actions st :
  notifier_configured cfg = false →
  exec cfg actions (mkWorld st [])
  = mkWorld (run cfg (delivered actions) st) [].
Proof.
  intros Hn. revert st.
  induction actions as [|[ev|i] actions IH]; intros st; [done | |].
  - cbn [exec act processor in_flight]. rewrite start_without_notifier by done.
    cbv beta iota. rewrite IH. reflexivity.
  - cbn [exec act processor in_flight]. rewrite lookup_nil. cbv beta iota.
    rewrite IH. reflexivity.
Qed.

Lemma delivered_one_at_a_time evs : delivered (one_at_a_time evs) = evs.
Proof.
  induction evs as [|ev evs IH]; [done |].
  change (delivered (one_at_a_time (ev :: evs)))
    with (ev :: delivered (one_at_a_time evs)).
  by rewrite IH.
Qed.

(** X9. Once the cursor has reached the number of questions, and no
    suspended handler has an assignment to the counters left (none is
    suspended in a flush or in the wrap-up notification), no schedule of
    deliveries and resumptions changes the cursor or the count of questions
    asked: nothing is matched any more. *)
Theorem counters_frozen_past_the_end cfg actions w
    (Hend : length (questions cfg) ≤ current_question_index (processor w))
    (Hpool : Forall past_counters (in_flight w)) :
  current_question_index (processor (exec cfg actions w))
  = current_question_index (processor w)
  ∧ questions_asked (processor (exec cfg actions w))
    = questions_asked (processor w).
Proof.
  revert w Hend Hpool. induction actions as [|a actions IH]; intros w Hend Hpool; [done |].
  cbn [exec].
  assert (Hact : current_question_index (processor (act cfg a w))
                 = current_question_index (processor w)
                 ∧ questions_asked (processor (act cfg a w))
                   = questions_asked (processor w)
                 ∧ Forall past_counters (in_flight (act cfg a w))).
  { destruct a as [ev|i]; cbn [act].
    - destruct (start_past_end cfg ev (processor w) Hend) as (Hc & Hq & Hp).
      destruct (start cfg ev (processor w)) as [r|p s];
        cbn [processor in_flight outcome_state] in *; split_and!; try done.
      apply Forall_app. split; [done |]. apply Forall_singleton. by eapply Hp.
    - destruct (in_flight w !! i) as [p|] eqn:Hi; [| done].
      assert (Hpi : past_counters p).
      { rewrite Forall_lookup in Hpool. by eapply Hpool. }
      destruct (resume_past_end cfg p (processor w) Hpi Hend) as (Hc & Hq & Hp).
      destruct (resume cfg p (processor w)) as [r|p' s];
        cbn [processor in_flight outcome_state] in *; split_and!; try done.
      + by apply Forall_delete.
      + apply Forall_insert; [done |]. by eapply Hp. }
  destruct Hact as (Hc & Hq & Hpool').
  destruct (IH (act cfg a w)) as (-> & ->); [lia | done | done].
Qed.

(** X18. Whatever the schedule, the transcript together with the entries
    the suspended handlers have still to append holds the trimmed text of
    every delivered agent fragment that is not blank and of every delivered
    user fragment of more than one character, each once and with its
    speaker, and nothing else. When no handler is suspended this is the
    transcript itself. The entries are in arrival order when no notifier is
    configured (then no handler is ever suspended) and when every handler
    ends before the next event is delivered. *)
Theorem transcript_holds_every_fragment cfg t0 actions :
  let w := exec cfg actions (mkWorld (setup t0 init_state) []) in
  on_books said owed_entries w ≡ₚ omap recorded (delivered actions)
  ∧ (in_flight w = [] → said (processor w) ≡ₚ omap recorded (delivered actions))
  ∧ (notifier_configured cfg = false →
     in_flight w = [] ∧ said (processor w) = omap recorded (delivered actions))
  ∧ (∀ evs, actions = one_at_a_time evs →
     in_flight w = [] ∧ said (processor w) = omap recorded evs).
Proof.
  cbv zeta.
  assert (Hs : is_Some (interview_start_time
                          (processor (mkWorld (setup t0 init_state) []))))
    by (by eexists).
  pose proof (exec_entries cfg actions _ Hs) as Hbooks.
  assert (Hserial : ∀ evs,
            said (run cfg evs (setup t0 init_state)) = omap recorded evs).
  { intros evs. unfold said. rewrite run_transcript; [done | by eexists]. }
  split_and!.
  - exact Hbooks.
  - intros Hnone. unfold on_books in Hbooks. rewrite Hnone in Hbooks.
    cbn [fmap list_fmap concat] in Hbooks. by rewrite app_nil_r in Hbooks.
  - intros Hn. rewrite exec_without_notifier by done.
    cbn [processor in_flight]. by rewrite Hserial.
  - intros evs ->. rewrite exec_one_at_a_time. cbn [processor in_flight].
    by rewrite Hserial.
Qed.

(** X19. Whatever the schedule, the closing phrases together with those the
    suspended agent handlers have still to append hold the trimmed text of
    every delivered agent fragment in which a closing keyword is found,
    each once, and nothing else; user fragments and ended waits add none.
    When no handler is suspended these are the closing phrases themselves.
    They are in arrival order when no notifier is configured and when every
    handler ends before the next event is delivered. *)
Theorem closing_phrases_hold_every_closing_fragment cfg t0 actions :
  let w := exec cfg actions (mkWorld (setup t0 init_state) []) in
  on_books agent_closing_phrases owed_closing w
  ≡ₚ omap closing_phrase_of (delivered actions)
  ∧ (in_flight w = [] →
     agent_closing_phrases (processor w)
     ≡ₚ omap closing_phrase_of (delivered actions))
  ∧ (notifier_configured cfg = false →
     in_flight w = []
     ∧ agent_closing_phrases (processor w)
       = omap closing_phrase_of (delivered actions))
  ∧ (∀ evs, actions = one_at_a_time evs →
     in_flight w = []
     ∧ agent_closing_phrases (processor w) = omap closing_phrase_of evs).
Proof.
  cbv zeta.
  assert (Hs : is_Some (interview_start_time
                          (processor (mkWorld (setup t0 init_state) []))))
    by (by eexists).
  pose proof (exec_closing cfg actions _ Hs) as Hbooks.
  assert (Hserial : ∀ evs,
            agent_closing_phrases (run cfg evs (setup t0 init_state))
            = omap closing_phrase_of evs).
  { intros evs. rewrite run_closing_phrases; [done | by eexists]. }
  split_and!.
  - exact Hbooks.
  - intros Hnone. unfold on_books in Hbooks. rewrite Hnone in Hbooks.
    cbn [fmap list_fmap concat] in Hbooks. by rewrite app_nil_r in Hbooks.
  - intros Hn. rewrite exec_without_notifier by done.
    cbn [processor in_flight]. by rewrite Hserial.
  - intros evs ->. rewrite exec_one_at_a_time. cbn [processor in_flight].
    by rewrite Hserial.
Qed.

(** * The further properties on the sample conversation *)

Lemma longer_buffer_matches_no_later_witness :
  ∃ j, check_question_match demo_config started
         (PyStr.join_space "Tell me about your experience"
            "with distributed systems") = Some j
       ∧ current_question_index started ≤ j ≤ 0.
Proof.
  apply (longer_buffer_matches_no_later demo_config started
           "Tell me about your experience" "with distributed systems" 0).
  by vm_compute.
Defined.

Lemma broadcast_mirrors_transcript_witness :
  omap entry_of
    (sent (run demo_config
             [AgentSpeech "Tell me about your experience" (Qc_of_Z 1001)
                (Qc_of_Z 1001);
              UserSpeech "Well, it started in school" (Qc_of_Z 1005)]
             (setup (Qc_of_Z 1000) init_state)))
  = transcript
      (run demo_config
         [AgentSpeech "Tell me about your experience" (Qc_of_Z 1001)
            (Qc_of_Z 1001);
          UserSpeech "Well, it started in school" (Qc_of_Z 1005)]
         (setup (Qc_of_Z 1000) init_state)).
Proof. apply broadcast_mirrors_transcript. reflexivity. Defined.

Lemma nothing_sent_without_notifier_witness :
  sent (run (make_config demo_questions 8 true false "")
          [AgentSpeech "Tell me about your experience" (Qc_of_Z 1001)
             (Qc_of_Z 1001);
           UserSpeech "Well, it started in school" (Qc_of_Z 1005)]
          started)
  = sent started.
Proof. apply nothing_sent_without_notifier. reflexivity. Defined.

Lemma user_completes_exactly_on_bye_witness :
  is_complete (state_of (on_user_speech demo_config "Well, it started in school"
                           (Qc_of_Z 1005) started))
  = false.
Proof.
  rewrite (proj1 (user_completes_exactly_on_bye demo_config
                    "Well, it started in school" (Qc_of_Z 1005) started
                    started_has_start_time)).
  reflexivity.
Defined.

Lemma agent_without_closing_keyword_witness :
  is_complete (state_of (on_agent_speech demo_config
                           "Tell me about your experience"
                           (Qc_of_Z 1001) (Qc_of_Z 1001) started))
  = is_complete started.
Proof.
  apply (agent_without_closing_keyword demo_config
           "Tell me about your experience" (Qc_of_Z 1001) (Qc_of_Z 1001) started).
  reflexivity.
Defined.


Lemma duration_grows_with_clock_witness :
  (get_duration_minutes (Qc_of_Z 1060) started
   ≤ get_duration_minutes (Qc_of_Z 1120) started)%Qc.
Proof.
  apply (duration_grows_with_clock demo_config (Qc_of_Z 1060) (Qc_of_Z 1120)
           started).
  by vm_compute.
Defined.

(** With a notifier configured the order can differ from the arrival
    order: a user's turn suspended in its flush is recorded after the agent
    fragment that arrived next. *)
Lemma transcript_out_of_arrival_order :
  in_flight (exec demo_config overtaking_schedule (mkWorld started [])) = []
  ∧ said (processor (exec demo_config overtaking_schedule (mkWorld started [])))
    = [(agent, "Tell me about your experience"); (agent, "I see");
       (user, "It started in school")]
  ∧ omap recorded (delivered overtaking_schedule)
    = [(agent, "Tell me about your experience");
       (user, "It started in school"); (agent, "I see")].
Proof. split_and!; by vm_compute. Qed.

(** Likewise the closing phrases: of two closing fragments suspended in
    their transcript notification, the one resumed first is appended
    first. *)
Lemma closing_phrases_out_of_arrival_order :
  in_flight (exec demo_config overtaking_closing_schedule (mkWorld started []))
  = []
  ∧ agent_closing_phrases
      (processor (exec demo_config overtaking_closing_schedule
                    (mkWorld started [])))
    = ["Goodbye!"; "Thank you for your time"]
  ∧ omap closing_phrase_of (delivered overtaking_closing_schedule)
    = ["Thank you for your time"; "Goodbye!"].
Proof. split_and!; by vm_compute. Qed.

(** X9 on an instance: after the closing fragment, a question fragment and
    a user's turn, delivered and resumed, leave the cursor at 3 and the
    count at 0. *)
Lemma counters_frozen_past_the_end_witness :
  current_question_index
    (processor
       (exec demo_config
          [ Deliver (AgentSpeech "Tell me about your experience"
                       (Qc_of_Z 1010) (Qc_of_Z 1010));
            Deliver (UserSpeech "Well, it started in school" (Qc_of_Z 1015));
            Resume 0;
            Resume 0 ]
          wrapped_up))
  = 3
  ∧ questions_asked
      (processor
         (exec demo_config
            [ Deliver (AgentSpeech "Tell me about your experience"
                         (Qc_of_Z 1010) (Qc_of_Z 1010));
              Deliver (UserSpeech "Well, it started in school" (Qc_of_Z 1015));
              Resume 0;
              Resume 0 ]
            wrapped_up))
    = 0.
Proof.
  assert (Hend : length (questions demo_config)
                 ≤ current_question_index (processor wrapped_up))
    by (vm_compute; lia).
  assert (Hpool : Forall past_counters (in_flight wrapped_up))
    by (vm_compute; constructor).
  destruct (counters_frozen_past_the_end demo_config
              [ Deliver (AgentSpeech "Tell me about your experience"
                           (Qc_of_Z 1010) (Qc_of_Z 1010));
                Deliver (UserSpeech "Well, it started in school" (Qc_of_Z 1015));
                Resume 0;
                Resume 0 ]
              wrapped_up Hend Hpool) as (Hc & Ha).
  rewrite Hc, Ha. split; reflexivity.
Defined.
